(** * AppStat2024: a verification development for the course notebooks

    The notebooks are Python/NumPy scripts.  Arrays of [float64] are
    embedded as lists of real numbers (exact arithmetic, no rounding),
    with [None] for a result that is not finite where a notebook can
    produce one; arrays and scalars of [int64] as integers reduced to
    64 bits after every operation; integer counters as [nat] or [Z];
    Python exceptions as [None] in the option monad; and the
    cell-by-cell effects on the file system as a small state-and-error
    monad. *)

From Stdlib Require Import Reals Lra Lia ZArith.
From stdpp Require Import base option list strings gmap.

Local Open Scope R_scope.

(** ** Decidable comparisons on the reals, used for NumPy boolean masks *)

#[global] Instance Rlt_decision : RelDecision Rlt := Rlt_dec.
#[global] Instance Rle_decision : RelDecision Rle := Rle_dec.
#[global] Instance Req_decision : EqDecision R := Req_dec_T.

(** Evaluate the [decide] and [bool_decide] tests of a closed goal over
    the reals. *)
Ltac Rsolve := first [ lra | (simpl; lra) | (intros [=]; lra) | (f_equal; lra) ].
Ltac Rdec :=
  repeat match goal with
  | |- context [bool_decide ?P] =>
      first [ rewrite (bool_decide_eq_true_2 P) by Rsolve
            | rewrite (bool_decide_eq_false_2 P) by Rsolve ]
  | |- context [@decide ?P ?d] =>
      first [ rewrite (@decide_True _ P d) by Rsolve
            | rewrite (@decide_False _ P d) by Rsolve ]
  end.

(** Equality of closed options, tuples and lists of reals, by components. *)
Ltac Rlist :=
  repeat match goal with
  | |- Some _ = Some _ => apply (f_equal Some)
  | |- (_, _) = (_, _) => apply f_equal2
  | |- _ :: _ = _ :: _ => apply f_equal2
  | |- @eq (list _) [] [] => reflexivity
  | |- @eq R _ _ => first [ lra | (simpl; lra) ]
  end.

(** ** The NumPy operations the notebooks call *)

Module NumPy.

(** [np.sum(a)] *)
Definition np_sum (a : list R) : R := foldr Rplus 0 a.

(** [np.mean(a)] *)
Definition np_mean (a : list R) : R := np_sum a / INR (length a).

(** [np.std(a, ddof=ddof)]: the root of the summed squared deviations
    from the mean over [max(len(a) - ddof, 0)]. *)
Definition np_std (ddof : nat) (a : list R) : R :=
  sqrt (np_sum (map (fun v => (v - np_mean a) * (v - np_mean a)) a)
        / INR (length a - ddof)).

(** Boolean-mask indexing [a[mask]]. *)
Fixpoint select {A} (mask : list bool) (a : list A) : list A :=
  match mask, a with
  | b :: mask', v :: a' => if b then v :: select mask' a' else select mask' a'
  | _, _ => []
  end.

(** Element-wise [&] of two boolean arrays. *)
Definition mask_and (m1 m2 : list bool) : list bool := zip_with andb m1 m2.

(** Element-wise arithmetic on arrays of equal shape. *)
Definition vadd (a b : list R) : list R := zip_with Rplus a b.
Definition vsub (a b : list R) : list R := zip_with Rminus a b.
Definition vmul (a b : list R) : list R := zip_with Rmult a b.
Definition vdiv (a b : list R) : list R := zip_with Rdiv a b.
Definition vscale (c : R) (a : list R) : list R := map (Rmult c) a.
Definition vpow (a : list R) (n : nat) : list R := map (fun v => v ^ n) a.

(** Element-wise [a / b] where a zero divisor is an error: [None]
    stands for NumPy's divide-by-zero condition. *)
Definition vdiv_checked (a b : list R) : option (list R) :=
  if bool_decide (Forall (fun d => d <> 0) b) then Some (vdiv a b) else None.

(** [np.linspace(lo, hi, n + 1)]: the [n + 1] edges of [n] equal bins. *)
Definition linspace (lo hi : R) (n : nat) : list R :=
  map (fun i => lo + INR i * ((hi - lo) / INR n)) (seq 0 (S n)).
#[global] Arguments linspace : simpl never.

(** The outer edges of one axis: a reversed range is an error, an
    empty one is widened by one half on each side. *)
Definition outer_edges (range : R * R) : option (R * R) :=
  let '(first_edge, last_edge) := range in
  if bool_decide (last_edge < first_edge) then None
  else if bool_decide (first_edge = last_edge)
       then Some (first_edge - 0.5, last_edge + 0.5)
       else Some (first_edge, last_edge).

(** The bin edges of one axis for an integer number of bins, which
    must be positive. *)
Definition bin_edges (n : nat) (range : R * R) : option (list R) :=
  match n with
  | O => None
  | S _ => '(smin, smax) ← outer_edges range; Some (linspace smin smax n)
  end.

(** [np.searchsorted(edges, v, side='right')] on ascending edges. *)
Definition searchsorted_right (edges : list R) (v : R) : nat :=
  length (filter (fun e => e <= v) edges).

(** The bin number of a sample: 0 and [len(edges)] are the two
    outlier bins; a sample on the last edge goes to the last bin. *)
Definition bin_number (edges : list R) (v : R) : nat :=
  let k := searchsorted_right edges v in
  if bool_decide (last edges = Some v) then (k - 1)%nat else k.

(** [np.histogram2d(x, y, bins=bins, range=range)]: counts, as floats,
    of the samples per core bin, with the edges of both axes. *)
Definition histogram2d (x y : list R) (bins : nat * nat)
    (range : (R * R) * (R * R)) : option (list (list R) * list R * list R) :=
  if bool_decide (length x = length y) then
    xedges ← bin_edges bins.1 range.1;
    yedges ← bin_edges bins.2 range.2;
    let sample := zip x y in
    let H := map (fun i => map (fun j =>
               INR (length (filter (fun p => bin_number xedges p.1 = S i
                                          /\ bin_number yedges p.2 = S j)
                              sample)))
               (seq 0 bins.2)) (seq 0 bins.1) in
    Some (H, xedges, yedges)
  else None.

(** Two-dimensional arrays, row by row. *)
Abbreviation matrix := (list (list R)).

(** [np.zeros((r, c))], [np.ones((r, c))], [np.eye(n, n)] *)
Definition zeros (r c : nat) : matrix := replicate r (replicate c 0).
Definition ones (r c : nat) : matrix := replicate r (replicate c 1).
Definition eye (n : nat) : matrix :=
  map (fun i => map (fun j => if Nat.eqb i j then 1 else 0) (seq 0 n))
      (seq 0 n).

(** The assignments [a[i] = v] and [A[i, j] = v] with nonnegative
    indices; an index out of range is an [IndexError]. *)
Definition set_item (a : list R) (i : nat) (v : R) : option (list R) :=
  if bool_decide (i < length a)%nat then Some (<[i := v]> a) else None.

Definition set_item2 (A : matrix) (i j : nat) (v : R) : option matrix :=
  row ← A !! i;
  row' ← set_item row j v;
  Some (<[i := row']> A).

(** Column [j] of a matrix and the number of its columns. *)
Definition column (j : nat) (B : matrix) : list R :=
  map (fun row => nth j row 0) B.

Definition ncols (B : matrix) : nat :=
  match B with [] => O | row :: _ => length row end.

(** [np.matmul] of a row with a matrix, of two matrices, and of a
    matrix with a one-dimensional array. *)
Definition vecmat (v : list R) (B : matrix) : list R :=
  map (fun j => np_sum (vmul v (column j B))) (seq 0 (ncols B)).

Definition matmul (A B : matrix) : matrix := map (fun row => vecmat row B) A.

Definition matvec (A : matrix) (v : list R) : list R :=
  map (fun row => np_sum (vmul row v)) A.

(** [np.linalg.matrix_power(A, n)] for [n >= 0]. *)
Fixpoint matrix_power (A : matrix) (n : nat) : matrix :=
  match n with
  | O => eye (length A)
  | S O => A
  | S n' => matmul (matrix_power A n') A
  end.

(** Element-wise sum of two matrices of one shape. *)
Definition madd (A B : matrix) : matrix := zip_with vadd A B.

(** The determinant of an [n] x [n] matrix, expanded along the first
    row. *)
Fixpoint det_n (n : nat) (A : matrix) : R :=
  match n, A with
  | S n', row :: rest =>
      np_sum (map (fun j => (-1) ^ j * nth j row 0
                            * det_n n' (map (delete j) rest))
                (seq 0 n))
  | _, _ => 1
  end.

Definition det (A : matrix) : R := det_n (length A) A.

Definition cofactor (i j : nat) (A : matrix) : R :=
  (-1) ^ (i + j) * det (map (delete j) (delete i A)).

(** [np.linalg.inv(A)] in exact arithmetic: the transposed cofactors
    over the determinant; a singular matrix is a [LinAlgError]. *)
Definition inv (A : matrix) : option matrix :=
  let n := length A in
  if bool_decide (det A = 0) then None
  else Some (map (fun i => map (fun j => cofactor j i A / det A) (seq 0 n))
               (seq 0 n)).

(** ** Results that are not finite

    A [float64] result is a finite number, idealised as a real, or one
    of [inf], [-inf] and [nan]; where a notebook can produce these,
    [None] stands for any of the three. *)

(** [a / b] on [float64]: a zero divisor gives [inf], [-inf] or [nan]
    (a warning, not an exception). *)
Definition fdiv (a b : R) : option R :=
  if bool_decide (b = 0) then None else Some (a / b).

(** [np.sqrt(a)]: [nan] below zero. *)
Definition fsqrt (a : R) : option R :=
  if bool_decide (a < 0) then None else Some (sqrt a).

(** Element-wise [a - b] and [a / b] where [a] may hold entries that
    are not finite and [b] is finite: such an entry stays not finite. *)
Definition vfsub (a : list (option R)) (b : list R) : list (option R) :=
  zip_with (fun u k => v ← u; Some (v - k)) a b.
Definition vfdiv (a : list (option R)) (b : list R) : list (option R) :=
  zip_with (fun u k => v ← u; fdiv v k) a b.

(** The entries of an array when all of them are finite. *)
Fixpoint finite_values (a : list (option R)) : option (list R) :=
  match a with
  | [] => Some []
  | u :: a' => v ← u; vs ← finite_values a'; Some (v :: vs)
  end.

(** [np.std(a, ddof=ddof)] of an array that may hold entries that are
    not finite: the result is not finite then, nor when there are no
    more than [ddof] entries (a quotient by zero). *)
Definition fstd (ddof : nat) (a : list (option R)) : option R :=
  vs ← finite_values a;
  if bool_decide (length vs <= ddof)%nat then None else Some (np_std ddof vs).

(** ** Arrays and scalars of [int64]

    Integer arithmetic wraps around silently: every result is reduced
    to the range from [-2^63] to [2^63 - 1]. *)
Definition int64 (z : Z) : Z := ((z + 2 ^ 63) mod 2 ^ 64 - 2 ^ 63)%Z.

Definition fits_int64 (z : Z) : Prop := (- 2 ^ 63 <= z < 2 ^ 63)%Z.

(** [np.arange(n)] *)
Definition arange (n : nat) : list Z := map Z.of_nat (seq 0 n).

(** [np.sum(a)] and [a**2] on an [int64] array. *)
Definition int_sum (a : list Z) : Z :=
  foldr (fun v acc => int64 (v + acc)) 0%Z a.
Definition int_square (a : list Z) : list Z := map (fun v => int64 (v ^ 2)) a.

(** The sum of the same entries in unbounded integers. *)
Definition Zsum (a : list Z) : Z := foldr Z.add 0%Z a.

End NumPy.

Import NumPy.

(** ** Calibration notebook: resolutions *)

Module Calibration.

(** [RD = (dmeas - dknown) / dknown], for measured distances that may
    hold entries that are not finite (the calibrated ones can); an entry
    whose known distance is zero is not finite. *)
Definition RD (dmeas : list (option R)) (dknown : list R) : list (option R) :=
  vfdiv (vfsub dmeas dknown) dknown.

(** [(-2.0 < a) & (a < 2.0)]: an entry that is not finite fails one of
    the two comparisons ([inf < 2.0] and [-2.0 < -inf] are false, as is
    every comparison with [nan]). *)
Definition range_mask (a : list (option R)) : list bool :=
  map (fun u => match u with
                | Some v => bool_decide (-2 < v) && bool_decide (v < 2)
                | None => false
                end) a.

(** [np.std(a[(-2.0 < a) & (a < 2.0)])], the expression of both
    resolution lines. *)
Definition resolution (a : list (option R)) : option R :=
  fstd 0 (select (range_mask a) a).

Definition Res_Raw (dmeas dknown : list R) : option R :=
  resolution (RD (map Some dmeas) dknown).

(** [calib] stands for the fitted correction
    [lsig_calibfit(lsig, *mfit_lsig.values[:])], which the notebook
    leaves to the reader. *)
Definition Res_calib_lsig (calib : list R -> list R)
    (dmeas dknown lsig : list R) : option R :=
  let dmeas_calib_lsig := zip_with fdiv dmeas (map (Rplus 1) (calib lsig)) in
  resolution (RD dmeas_calib_lsig dknown).

(** The finite entries of an array that lie strictly inside (-2, 2),
    and their standard deviation ([nan] when there is none). *)
Definition kept (a : list (option R)) : list R :=
  filter (fun v => -2 < v < 2) (omap (fun u : option R => u) a).

Definition std_of_kept (vs : list R) : option R :=
  match vs with [] => None | _ => Some (np_std 0 vs) end.

(** [0.5*(edges[1:] + edges[:-1])] *)
Definition centers (edges : list R) : list R :=
  vscale 0.5 (vadd (tail edges) (removelast edges)).

Definition profile_x (x y : list R) (bins : nat * nat)
    (xyrange : (R * R) * (R * R)) : option (list R * list R * list R) :=
  '(H, xedges, yedges) ← histogram2d x y bins xyrange;
  let x_center := centers xedges in
  let y_center := centers yedges in
  let wsums := map np_sum H in
  let mask := map (fun w => bool_decide (0 < w)) wsums in
  mean ← vdiv_checked
    (select mask (map (fun row => np_sum (vmul row y_center)) H))
    (select mask wsums);
  mean_squared ← vdiv_checked
    (select mask (map (fun row => np_sum (vmul row (vpow y_center 2))) H))
    (select mask wsums);
  std ← vdiv_checked
    (map sqrt (vsub mean_squared (vpow mean 2)))
    (map sqrt (select mask wsums));
  Some (select mask x_center, mean, std).

(** The statistics of one x-bin, over the y-bin centers weighted by
    the counts [row] of that x-bin. *)
Definition bin_mean (row y_center : list R) : R :=
  np_sum (vmul row y_center) / np_sum row.

Definition bin_std (row y_center : list R) : R :=
  sqrt (np_sum (vmul row (map (fun v => (v - bin_mean row y_center) ^ 2)
                            y_center))
        / np_sum row).

(** The x-bins with a positive count, each with its center. *)
Definition nonempty_bins (H : list (list R)) (xedges : list R)
    : list (R * list R) :=
  filter (fun b => 0 < np_sum b.2) (zip (centers xedges) H).

(** The reduction as the specification words it: per non-empty x-bin
    the center, the mean and the standard deviation of y. *)
Definition profile_x_std_spec (x y : list R) (bins : nat * nat)
    (xyrange : (R * R) * (R * R)) : option (list R * list R * list R) :=
  '(H, xedges, yedges) ← histogram2d x y bins xyrange;
  let bs := nonempty_bins H xedges in
  Some (map fst bs,
        map (fun b => bin_mean b.2 (centers yedges)) bs,
        map (fun b => bin_std b.2 (centers yedges)) bs).

(** Four samples in one x-bin, two in each of two y-bins. *)
Definition x_sample : list R := [0.5; 0.5; 0.5; 0.5].
Definition y_sample : list R := [-0.5; 0.5; -0.5; 0.5].

End Calibration.

(** ** Fisher notebook: separation of two samples *)

Module Fisher.

Definition calc_separation (x y : list R) : R :=
  let mean_x := np_mean x in
  let mean_y := np_mean y in
  let std_x := np_std 1 x in
  let std_y := np_std 1 y in
  Rabs (mean_x - mean_y) / sqrt (std_x ^ 2 + std_y ^ 2).

(** The data file as loaded: per flower the four measurements and the
    integer species code 1, 2 or 3 of the last column. *)
Definition dataset := list (list R * Z).

Definition nvar : nat := 4.
Definition nspec : nat := 3.

(** [X = data[:, :-1]] and [y = data[:, -1].astype(int)], after
    [data[:, -1] -= 1]. *)
Definition X (data : dataset) : matrix := map fst data.
Definition y (data : dataset) : list Z := map (fun r => (r.2 - 1)%Z) data.

(** [X[y == ispec][:, ivar]] *)
Definition data_spec_var (data : dataset) (ispec ivar : nat) : list R :=
  column ivar
    (select (map (fun s => bool_decide (s = Z.of_nat ispec)) (y data))
            (X data)).

(** The array [mu], filled entry by entry in the plotting loop:
    [mu[ispec, ivar] = data_spec_var.mean()]. *)
Definition mu_of (data : dataset) : matrix :=
  map (fun ispec => map (fun ivar => np_mean (data_spec_var data ispec ivar))
                      (seq 0 nvar))
      (seq 0 nspec).

Record fisher := {
  mu : matrix;
  covmat_Vers : matrix;
  covmat_Virg : matrix;
  covmat_comb : matrix;
  covmat_comb_inv : matrix;
  wf : list R
}.

(** The cells from the means to the Fisher coefficients. *)
Definition discriminant (data : dataset) : option fisher :=
  let mu := mu_of data in
  let covmat_Vers := ones 4 4 in
  let covmat_Virg := eye 4 in
  let covmat_comb := madd covmat_Vers covmat_Virg in
  covmat_comb_inv ← inv covmat_comb;
  let wf := [0; 1; 2; 3] in
  Some {| mu := mu; covmat_Vers := covmat_Vers; covmat_Virg := covmat_Virg;
          covmat_comb := covmat_comb; covmat_comb_inv := covmat_comb_inv;
          wf := wf |}.

(** The per-class mean vectors of Versicolor (1) and Virginica (2). *)
Definition mean_Vers (f : fisher) : list R := nth 1 (mu f) [].
Definition mean_Virg (f : fisher) : list R := nth 2 (mu f) [].

(** The coefficients as the specification words them: the inverse of
    the combined covariance matrix applied to a difference of the two
    class means. *)
Definition wf_spec (f : fisher) (first second : list R) : list R :=
  matvec (covmat_comb_inv f) (vsub first second).

(** Three flowers, one of each species. *)
Definition three_flowers : dataset :=
  [([5; 3; 1; 0], 1%Z); ([1; 0; 0; 0], 2%Z); ([0; 0; 0; 0], 3%Z)].

End Fisher.

(** ** Analytical linear fit notebook *)

Module LinearFit.

(** The results of the analytical fit.  The two uncertainties are
    [nan] when the quotient under their square root is negative. *)
Record fit_result := {
  alpha0_calc : R;
  alpha1_calc : R;
  sigma_alpha0_calc : option R;
  sigma_alpha1_calc : option R;
  Chi2_calc : R;
  Ndof_calc : Z;
  Prob_calc : R
}.

(** The generated data: [x = np.arange(Npoints)+1], an [int64] array,
    and [y = alpha0 + alpha1*x + noise], an array of [float64], where
    [noise] is the array drawn by [r.normal(0, sigmay, Npoints)]. *)
Definition generate_x (Npoints : nat) : list Z :=
  map (fun v => int64 (v + 1)) (arange Npoints).

Definition generate_y (alpha0 alpha1 : R) (x : list Z) (noise : list R)
    : list R :=
  vadd (map (fun v => alpha0 + alpha1 * IZR v) x) noise.

Section AnalyticalFit.

(** [scipy.stats.chi2.sf] *)
Variable chi2_sf : R -> Z -> R.

(** One turn of the loop that accumulates [Chi2_calc]; an index out
    of range is an error, and a zero uncertainty makes the sum not
    finite. *)
Definition chi2_step (alpha0_calc alpha1_calc : R) (x : list Z)
    (y ey : list R) (acc : option R) (i : nat) : option R :=
  Chi2_calc ← acc;
  xi ← x !! i;
  let fit_value := alpha0_calc + alpha1_calc * IZR xi in
  yi ← y !! i;
  eyi ← ey !! i;
  r ← fdiv (yi - fit_value) eyi;
  Some (Chi2_calc + r ^ 2).

(** The analytical fit of one dataset, with [Npoints = len(x)].  The
    sums over [x] and [Delta] are [int64]; the sums with [y] and the
    parameters are [float64].  [None]: the cell raises, or a parameter
    or [Chi2_calc] is not finite. *)
Definition analytical_fit (x : list Z) (y : list R) (sigmay : R)
    : option fit_result :=
  let Npoints := length x in
  let ey := vscale sigmay (map (fun _ => 1) x) in
  let sum := Z.of_nat (length x) in
  let sumx := int_sum x in
  let sumxx := int_sum (int_square x) in
  let sumy := np_sum y in
  let sumxy := np_sum (vmul (map IZR x) y) in
  let Delta := int64 (int64 (sumxx * sum) - int64 (sumx ^ 2)) in
  alpha0_calc ← fdiv (sumy * IZR sumxx - sumxy * IZR sumx) (IZR Delta);
  alpha1_calc ← fdiv (sumxy * IZR sum - sumy * IZR sumx) (IZR Delta);
  let sigma_alpha0_calc :=
    q ← fdiv (IZR sumxx) (IZR Delta); s ← fsqrt q; Some (sigmay * s) in
  let sigma_alpha1_calc :=
    q ← fdiv (IZR sumx) (IZR Delta); s ← fsqrt q; Some (sigmay * s) in
  Chi2_calc ← foldl (chi2_step alpha0_calc alpha1_calc x y ey) (Some 0)
                (seq 0 Npoints);
  let Nvar := 2%Z in
  let Ndof_calc := (Z.of_nat Npoints - Nvar)%Z in
  let Prob_calc := chi2_sf Chi2_calc Ndof_calc in
  Some {| alpha0_calc := alpha0_calc;
          alpha1_calc := alpha1_calc;
          sigma_alpha0_calc := sigma_alpha0_calc;
          sigma_alpha1_calc := sigma_alpha1_calc;
          Chi2_calc := Chi2_calc;
          Ndof_calc := Ndof_calc;
          Prob_calc := Prob_calc |}.

End AnalyticalFit.

(** [Delta] of an [int64] array as the cell computes it, and the same
    expression in unbounded integers. *)
Definition Delta_of (x : list Z) : Z :=
  int64 (int64 (int_sum (int_square x) * Z.of_nat (length x))
         - int64 (int_sum x ^ 2)).

Definition Delta_exact (x : list Z) : Z :=
  (Zsum (map (fun v => v ^ 2) x) * Z.of_nat (length x) - Zsum x ^ 2)%Z.

(** The three integers of the fit are what they are in unbounded
    integers: nothing has wrapped around. *)
Definition no_overflow (x : list Z) : Prop :=
  fits_int64 (Zsum x) /\
  fits_int64 (Zsum (map (fun v => v ^ 2)%Z x)) /\
  fits_int64 (Delta_exact x).

(** The sum of squared weighted residuals of a line with intercept [a]
    and slope [b]. *)
Definition chi2_of (x y : list R) (sigmay a b : R) : R :=
  np_sum (zip_with (fun xi yi => ((yi - (a + b * xi)) / sigmay) ^ 2) x y).

(** [Npoints = 110000], a number of points for which [Delta] no longer
    fits into [int64]. *)
Definition Npoints_large : nat := Z.to_nat 110000.

End LinearFit.

(** ** Ehrenfest Markov-chain notebook *)

Module Ehrenfest.

(** Python's [a / b] on nonnegative integers: a float, or
    [ZeroDivisionError]. *)
Definition true_div (a b : nat) : option R :=
  match b with O => None | S _ => Some (INR a / INR b) end.

(** One turn of the loop that fills the matrix of jump probabilities. *)
Definition M_step (NB : nat) (acc : option matrix) (i : nat) : option matrix :=
  M ← acc;
  if bool_decide (i = 0)%nat then
    v ← true_div (NB - i) NB; set_item2 M i (i + 1) v
  else if bool_decide (i = NB) then
    v ← true_div i NB; set_item2 M i (i - 1) v
  else
    v ← true_div i NB;
    M1 ← set_item2 M i (i - 1) v;
    w ← true_div (NB - i) NB;
    set_item2 M1 i (i + 1) w.

Definition build_M (NB : nat) : option matrix :=
  foldl (M_step NB) (Some (zeros (NB + 1) (NB + 1))) (seq 0 (NB + 1)).

Record markov := {
  M : matrix;
  V1 : matrix;
  V2 : list R;
  PAfter : matrix;
  P9 : list R
}.

(** The two cells of the Markov-chain derivation, for [NB] balls.  The
    number of turns [nturns] is set earlier in the notebook. *)
Definition derivation (NB nturns : nat) : option markov :=
  M ← build_M NB;
  V1 ← set_item2 (zeros 1 (NB + 1)) 0 3 1;
  V2 ← set_item (replicate (NB + 1) 0) 9 1;
  let PAfter := matmul V1 (matrix_power (ones (NB + 1) (NB + 1)) 1) in
  let P9 := matvec PAfter (replicate (NB + 1) 0) in
  Some {| M := M; V1 := V1; V2 := V2; PAfter := PAfter; P9 := P9 |}.

(** The entry of the jump matrix in row [i] and column [j]. *)
Definition jump (NB i j : nat) : R :=
  if Nat.eqb (j + 1) i then INR i / INR NB
  else if Nat.eqb j (i + 1) then INR (NB - i) / INR NB
  else 0.

(** The matrix after the first [k] turns of the loop. *)
Definition partial_M (NB k : nat) : matrix :=
  map (fun i => if Nat.ltb i k then map (jump NB i) (seq 0 (NB + 1))
                else replicate (NB + 1) 0)
      (seq 0 (NB + 1)).

(** A probability vector, and a square row-stochastic matrix. *)
Definition prob_vector (v : list R) : Prop :=
  Forall (fun p => 0 <= p) v /\ np_sum v = 1.

Definition row_stochastic (n : nat) (A : matrix) : Prop :=
  length A = n /\ Forall (fun row => length row = n /\ prob_vector row) A.

End Ehrenfest.

(** ** Accept/reject sampler notebook *)

Module AcceptReject.

(** The variables of the notebook that the sampling cell can see:
    the position of the generator [r] in its stream of draws, the
    array made earlier by the transformation method, and the two
    variables the cell is about. *)
Record state := {
  rng : nat;
  x_transformation : list R;
  N_try : nat;
  x_accepted : list R
}.

Section Sampler.

(** The draws of [r.random_sample()] from this cell on. *)
Variable u : nat -> R.

Variables xmin xmax : R.

Definition ymin : R := 0.
Definition ymax : R := 2.

(** [r.uniform(low, high)] at generator position [pos]. *)
Definition uniform (low high : R) (pos : nat) : R * nat :=
  (low + (high - low) * u pos, S pos).

(** The [while True] loop, run for at most [fuel] turns: the accepted
    [x_test] with the new generator position and try counter, or
    [None] when no candidate was accepted within [fuel] turns. *)
Fixpoint try_until_accept (fuel pos N_try : nat) : option (R * nat * nat) :=
  match fuel with
  | O => None
  | S fuel' =>
      let N_try := (N_try + 1)%nat in
      let '(x_test, pos) := uniform xmin xmax pos in
      let '(y_test, pos) := uniform ymin ymax pos in
      if bool_decide (y_test < 2 * x_test) then Some (x_test, pos, N_try)
      else try_until_accept fuel' pos N_try
  end.

(** One turn of the [for] loop. *)
Definition sample_step (fuel : nat) (acc : option state) (i : nat)
    : option state :=
  s ← acc;
  '(x_test, pos, N_try') ← try_until_accept fuel (rng s) (N_try s);
  x_accepted' ← set_item (x_accepted s) i x_test;
  Some {| rng := pos; x_transformation := x_transformation s;
          N_try := N_try'; x_accepted := x_accepted' |}.

(** The sampling cell, started in state [s0]. *)
Definition sampler (fuel N_points : nat) (s0 : state) : option state :=
  foldl (sample_step fuel)
    (Some {| rng := rng s0; x_transformation := x_transformation s0;
             N_try := 0; x_accepted := replicate N_points 0 |})
    (seq 0 N_points).

(** The candidate and the envelope draw of try number [t], counted
    from 0 at generator position [pos0], and the acceptance test. *)
Definition x_of_try (pos0 t : nat) : R :=
  xmin + (xmax - xmin) * u (pos0 + 2 * t).

Definition y_of_try (pos0 t : nat) : R :=
  ymin + (ymax - ymin) * u (pos0 + 2 * t + 1).

Definition accepted (pos0 t : nat) : Prop :=
  y_of_try pos0 t < 2 * x_of_try pos0 t.

End Sampler.

#[global] Instance accepted_decision u xmin xmax pos0 t :
  Decision (accepted u xmin xmax pos0 t) := Rlt_dec _ _.

(** What holds of the state [s] after [k] turns of the [for] loop
    started in [s0]. *)
Definition loop_invariant (u : nat -> R) (xmin xmax : R) (N_points : nat)
    (s0 : state) (k : nat) (s : state) : Prop :=
  rng s = (rng s0 + 2 * N_try s)%nat /\
  x_transformation s = x_transformation s0 /\
  length (filter (accepted u xmin xmax (rng s0)) (seq 0 (N_try s))) = k /\
  x_accepted s
    = map (x_of_try u xmin xmax (rng s0))
        (filter (accepted u xmin xmax (rng s0)) (seq 0 (N_try s)))
      ++ replicate (N_points - k) 0 /\
  (0 < k -> accepted u xmin xmax (rng s0) (N_try s - 1))%nat.

(** A stream of draws in which every candidate is 1/2 and every
    envelope draw 1/4 of the way up. *)
Definition half_quarter (k : nat) : R :=
  if Nat.even k then 1 / 2 else 1 / 4.

End AcceptReject.

(** ** The file-system effects of the notebooks with a save flag *)

Module Notebooks.

Inductive exn := NameError (name : string).

(** What a run has done so far: the figure variables it has bound, the
    files it has read and the files it has written, latest first. *)
Record world := {
  figures : gset string;
  files_read : list string;
  files_written : list string
}.

Definition fresh : world :=
  {| figures := ∅; files_read := []; files_written := [] |}.

(** A piece of a notebook: it changes the world and either returns
    or raises, after which nothing more runs. *)
Definition cell (A : Type) : Type := world -> (exn + A) * world.

#[global] Instance cell_ret : MRet cell := fun A a w => (inr a, w).

#[global] Instance cell_bind : MBind cell :=
  fun A B f c w => match c w with
                   | (inr a, w') => f a w'
                   | (inl e, w') => (inl e, w')
                   end.

Definition skip : cell unit := mret tt.

(** [if flag: body] *)
Definition when (flag : bool) (body : cell unit) : cell unit :=
  if flag then body else skip.

(** [np.loadtxt(filename)] and [pd.read_csv(filename)] *)
Definition loadtxt (filename : string) : cell unit :=
  fun w => (inr tt, {| figures := figures w;
                       files_read := filename :: files_read w;
                       files_written := files_written w |}).

(** [fig, ax = plt.subplots(...)] *)
Definition subplots (fig : string) : cell unit :=
  fun w => (inr tt, {| figures := {[fig]} ∪ figures w;
                       files_read := files_read w;
                       files_written := files_written w |}).

(** [fig.savefig(filename)]: an unbound name is a [NameError]. *)
Definition savefig (fig filename : string) : cell unit :=
  fun w => if bool_decide (fig ∈ figures w)
           then (inr tt, {| figures := figures w;
                            files_read := files_read w;
                            files_written := filename :: files_written w |})
           else (inl (NameError fig), w).

Definition run (c : cell unit) : (exn + unit) * world := c fresh.

(** The notebooks that define a save flag, reduced to their figure and
    file statements, in source order. *)

Definition Calibration (SaveFigures : bool) : cell unit :=
  loadtxt "data_calib.txt" ;;
  subplots "fig_RD" ;;
  when SaveFigures (savefig "fig_rel" "Resolution_Uncalibrated.pdf").

Definition FisherDiscriminant (save_plots : bool) : cell unit :=
  loadtxt "DataSet_AndersonFisherIris.txt" ;;
  subplots "fig_1D" ;;
  when save_plots (savefig "fig_1D" "FisherInputHists.pdf") ;;
  subplots "fig_corr" ;;
  when save_plots (savefig "fig_corr" "FisherInputHists_corr.pdf").

Definition HarmonicOscillator (SavePlots : bool) : cell unit :=
  loadtxt "data_HarmOsc1.txt" ;;
  subplots "fig1" ;;
  subplots "fig" ;;
  when SavePlots (savefig "fig" "Fit_HarmOsc1.pdf") ;;
  loadtxt "data_HarmOsc2.txt" ;;
  subplots "fig2" ;;
  loadtxt "data_HarmOsc3.txt" ;;
  subplots "fig3".

Definition PiEstimate (save_plots : bool) : cell unit :=
  subplots "fig1" ;;
  when save_plots (savefig "fig1" "HitDist.pdf").

Definition AnalyticalLinearFit (save_plots : bool) : cell unit :=
  subplots "fig" ;;
  when save_plots (savefig "fig" "AnalyticalLinearFit.pdf").

Definition ChiSquareTest (Nexp : nat) (save_plots : bool) : cell unit :=
  subplots "fig" ;;
  when save_plots (savefig "fig" "FitToLine.pdf") ;;
  when (Nat.ltb 1 Nexp)
    (subplots "fig2" ;;
     when save_plots (savefig "fig2" "FitResultDistributions.pdf")).

Definition Chi2Distributions (Nexp : nat) (save_plots : bool) : cell unit :=
  subplots "figLin" ;;
  when save_plots (savefig "figLin" "Chi2Dist_LinearFit.pdf") ;;
  subplots "figOsc" ;;
  when save_plots (savefig "figOsc" "Chi2Dist_OscillationFit.pdf") ;;
  subplots "figExp" ;;
  when save_plots (savefig "figExp" "Chi2Dist_ExponentialFit.pdf") ;;
  subplots "fig" ;;
  when (Nat.ltb 1 Nexp)
    (subplots "fig2" ;;
     when save_plots (savefig "fig2" "Chi2Dist_SeveralCases.pdf")).

Definition BinomialPoissonGaussian (save_plots : bool) : cell unit :=
  subplots "fig0" ;;
  subplots "fig" ;;
  subplots "fig2" ;;
  when save_plots (savefig "fig" "BinomialPoissonGaussian.pdf").

Definition TransformationAcceptReject (save_plots : bool) : cell unit :=
  subplots "fig" ;;
  when save_plots (savefig "fig" "Hist_2x_TransformationMethod.pdf") ;;
  subplots "fig2" ;;
  when save_plots (savefig "fig2" "Hist_2x_AcceptRejectMethod.pdf").

Definition CompanySize (save_plots : bool) : cell unit :=
  loadtxt "TableData_Denmark2020.txt".

Definition HypothesisTesting (save_plots : bool) : cell unit := skip.

Definition FittingTricks (SavePlots : bool) : cell unit := subplots "fig".

Definition CentralLimit (save_plots : bool) : cell unit := skip.

(** All of them, for [Nexp] experiments in the two chi-square
    notebooks. *)
Definition flag_notebooks (Nexp : nat) : list (bool -> cell unit) :=
  [Calibration; FisherDiscriminant; HarmonicOscillator; PiEstimate;
   AnalyticalLinearFit; ChiSquareTest Nexp; Chi2Distributions Nexp;
   BinomialPoissonGaussian; TransformationAcceptReject; CompanySize;
   HypothesisTesting; FittingTricks; CentralLimit].

End Notebooks.

(** ** Fisher notebook: the spread and covariance cells *)

Module FisherStats.
Import Fisher.

(** [np.cov(X, Y, ddof=1)[0, 1]]: the summed products of the deviations
    from the two means over [max(len(X) - 1, 0)]; arrays of different
    lengths cannot be stacked, a [ValueError]. *)
Definition get_covariance_offdiag (X Y : list R) : option R :=
  if bool_decide (length X = length Y) then
    Some (np_sum (vmul (map (fun v => v - np_mean X) X)
                       (map (fun v => v - np_mean Y) Y))
          / INR (length X - 1))
  else None.

(** The array [std], filled beside [mu] in the plotting loop:
    [std[ispec, ivar] = data_spec_var.std(ddof=1)]. *)
Definition std_of (data : dataset) : matrix :=
  map (fun ispec => map (fun ivar => np_std 1 (data_spec_var data ispec ivar))
                      (seq 0 nvar))
      (seq 0 nspec).

(** The entry [covariances[ivar, jvar, ispec]] of the scatter-plot loop. *)
Definition covariance (data : dataset) (ivar jvar ispec : nat) : option R :=
  get_covariance_offdiag (data_spec_var data ispec ivar)
                         (data_spec_var data ispec jvar).

(** Two Versicolor flowers. *)
Definition versicolor_pair : dataset :=
  [([5; 3; 1; 0], 2%Z); ([7; 3; 4; 1], 2%Z)].

End FisherStats.

(** ** Chi-square test notebook: the hand-written chi-square *)

Module ChiSquareOwn.

(** [fit_function(x, alpha0, alpha1)] on an array [x], as defined in
    both linear-fit notebooks. *)
Definition fit_function (x : list R) (alpha0 alpha1 : R) : list R :=
  map (fun v => alpha0 + alpha1 * v) x.

(** [chi2_owncalc(alpha0, alpha1)] for the data [x], [y], [sy] of its
    enclosing loop. *)
Definition chi2_owncalc (x y sy : list R) (alpha0 alpha1 : R) : R :=
  let y_fit := fit_function x alpha0 alpha1 in
  let chi2 := np_sum (vpow (vdiv (vsub y y_fit) sy) 2) in
  chi2.

End ChiSquareOwn.

(** ** Ehrenfest notebook: the simulated ball swapping *)

Module EhrenfestSim.

(** [Initial_Place = np.zeros((NB,), dtype=int); Initial_Place[3:] = 1]:
    basket 0 for the first three balls, basket 1 for the others. *)
Definition Initial_Place (NB : nat) : list Z :=
  let zeros := replicate NB 0%Z in
  take 3 zeros ++ map (fun _ => 1%Z) (drop 3 zeros).

(** [np.sum(Place == 0)], the number of balls in the blue basket. *)
Definition count_blue (Place : list Z) : nat :=
  length (filter (fun b => b = 0%Z) Place).

(** The [if]/[else] that moves ball [id] to the other basket; an index
    out of range is an [IndexError]. *)
Definition move_ball (Place : list Z) (id : nat) : option (list Z) :=
  b ← Place !! id;
  if bool_decide (b = 0%Z) then Some (<[id := 1%Z]> Place)
  else Some (<[id := 0%Z]> Place).

(** One turn of the inner loop; [draw iturns] is the value of
    [np.random.randint(0,10)] in that turn. *)
Definition turn (draw : nat -> nat) (acc : option (list Z * list R))
    (iturns : nat) : option (list Z * list R) :=
  '(Place, Nballs) ← acc;
  let id := draw iturns in
  Place' ← move_ball Place id;
  Nballs' ← set_item Nballs (iturns + 1) (INR (count_blue Place'));
  Some (Place', Nballs').

(** One experiment of the outer loop: the final placement, the array
    [Nballs] and the entry written to [H20]. *)
Definition experiment (NB nturns : nat) (draw : nat -> nat)
    : option (list Z * list R * R) :=
  let Place := Initial_Place NB in
  Nballs ← set_item (replicate (nturns + 1) 0) 0 (INR (count_blue Place));
  '(Place, Nballs) ← foldl (turn draw) (Some (Place, Nballs)) (seq 0 nturns);
  Some (Place, Nballs, INR (count_blue Place)).

(** What holds of the placement and of [Nballs] after [k] turns. *)
Definition turn_invariant (NB nturns k : nat) (st : list Z * list R) : Prop :=
  let '(Place, Nballs) := st in
  length Place = NB /\
  length Nballs = (nturns + 1)%nat /\
  Nballs !! 0%nat = Some (INR (Nat.min 3 NB)) /\
  Nballs !! k = Some (INR (count_blue Place)) /\
  (forall t, (t < k)%nat -> exists a b : nat,
      Nballs !! t = Some (INR a) /\ Nballs !! S t = Some (INR b) /\
      (b = a + 1 \/ a = b + 1)%nat) /\
  Nat.even (count_blue Place) = Nat.even (Nat.min 3 NB + k) /\
  (count_blue Place <= NB)%nat.

End EhrenfestSim.

(** ** Transformation and accept/reject notebook: the other cells *)

Module SamplingCells.
Import AcceptReject.

(** [fx_2x(x)], with the notebook's settings as arguments. *)
Definition fx_2x (xmin xmax : R) (N_bins N_points : nat) (x : R) : R :=
  let k := (xmax - xmin) / INR N_bins in
  let N := INR N_points * k in
  N * 2 * x.

(** [x_transformation = np.sqrt(r.uniform(size=N_points))], for the
    draws [u] of the generator. *)
Definition transformation (u : nat -> R) (N_points : nat) : list R :=
  map (fun k => sqrt (uniform u 0 1 k).1) (seq 0 N_points).

Record efficiency := {
  eff : R;
  eff_error : R;
  integral : R;
  eintegral : R
}.

(** The efficiency cell after the sampling cell has finished in state
    [s]; [N_points / N_try] divides two Python integers. *)
Definition efficiency_cell (xmin xmax : R) (N_points : nat) (s : state)
    : option efficiency :=
  eff ← Ehrenfest.true_div N_points (N_try s);
  let eff_error := sqrt (eff * (1 - eff) / INR (N_try s)) in
  let integral := eff * (xmax - xmin) * (ymax - ymin) in
  let eintegral := eff_error * (xmax - xmin) * (ymax - ymin) in
  Some {| eff := eff; eff_error := eff_error;
          integral := integral; eintegral := eintegral |}.

(** The generator at the start of the sampling cell, nothing made yet. *)
Definition start_state : state :=
  {| rng := 0; x_transformation := []; N_try := 0; x_accepted := [] |}.

End SamplingCells.

(** ** Monte Carlo estimate of pi *)

Module MonteCarloPi.

(** [np.sum(mask)] of a boolean array. *)
Definition count_true (mask : list bool) : nat :=
  length (filter (fun b => b = true) mask).

(** [hit_dist_x**2 + hit_dist_y**2 < 1] *)
Definition mask_inside (hit_dist_x hit_dist_y : list R) : list bool :=
  map (fun r2 => bool_decide (r2 < 1))
      (vadd (vpow hit_dist_x 2) (vpow hit_dist_y 2)).

(** [~mask_inside] *)
Definition mask_outside (hit_dist_x hit_dist_y : list R) : list bool :=
  map negb (mask_inside hit_dist_x hit_dist_y).



End MonteCarloPi.

(** * Properties *)

Section MaskLemmas.
Import Calibration.

Lemma select_range_mask (a : list (option R)) :
  select (range_mask a) a = map Some (kept a).
Proof.
  unfold kept, range_mask. induction a as [|[v|] a IH]; [reflexivity| |].
  - cbn [map select omap list_omap]. rewrite filter_cons, IH.
    destruct (decide (-2 < v < 2)) as [[H1 H2]|Hn].
    + rewrite !bool_decide_eq_true_2 by assumption. reflexivity.
    + destruct (decide (-2 < v)) as [H1|H1].
      * rewrite (bool_decide_eq_true_2 _ H1).
        rewrite bool_decide_eq_false_2
          by (intros H2; apply Hn; split; assumption).
        reflexivity.
      * rewrite (bool_decide_eq_false_2 _ H1). reflexivity.
  - cbn [map select omap list_omap]. exact IH.
Qed.

Lemma finite_values_Some (vs : list R) : finite_values (map Some vs) = Some vs.
Proof.
  induction vs as [|v vs IH]; [reflexivity|].
  cbn [map finite_values mbind option_bind]. now rewrite IH.
Qed.

Lemma resolution_kept (a : list (option R)) :
  resolution a = std_of_kept (kept a).
Proof.
  unfold resolution, fstd. rewrite select_range_mask, finite_values_Some.
  cbn [mbind option_bind]. destruct (kept a) as [|v vs]; [reflexivity|].
  rewrite bool_decide_eq_false_2 by (cbn [length]; lia). reflexivity.
Qed.

Lemma kept_app (a1 a2 : list (option R)) : kept (a1 ++ a2) = kept a1 ++ kept a2.
Proof. unfold kept. now rewrite omap_app, filter_app. Qed.

Lemma kept_outlier (u : option R) (a : list (option R)) :
  match u with Some v => ~ (-2 < v < 2) | None => True end ->
  kept (u :: a) = kept a.
Proof.
  unfold kept. destruct u as [v|]; intros Hu; cbn [omap list_omap];
    [|reflexivity].
  rewrite filter_cons. now destruct (decide (-2 < v < 2)).
Qed.

Lemma RD_entries (a : list (option R)) (dknown : list R) :
  RD a dknown
  = zip_with (fun u k => match u with
                         | Some v => if bool_decide (k = 0) then None
                                     else Some ((v - k) / k)
                         | None => None
                         end) a dknown.
Proof.
  unfold RD, vfdiv, vfsub, fdiv. revert dknown.
  induction a as [|[v|] a IH]; intros [|k dknown]; try reflexivity;
    cbn [zip_with mbind option_bind]; now rewrite IH.
Qed.

Lemma RD_measured (dmeas dknown : list R) :
  RD (map Some dmeas) dknown
  = zip_with (fun m k => if bool_decide (k = 0) then None
                         else Some ((m - k) / k)) dmeas dknown.
Proof.
  rewrite RD_entries. revert dknown.
  induction dmeas as [|m dmeas IH]; intros [|k dknown]; try reflexivity.
  cbn [map zip_with]. now rewrite IH.
Qed.

End MaskLemmas.

Module CalibrationProps.
Import Calibration.

(** C8: the array [RD] holds, entry by entry, the difference of the
    measured and the known distance relative to the known one (not
    finite where the known distance is zero); both resolutions are the
    standard deviation of its finite entries strictly inside (-2, 2);
    and an entry outside that range, wherever it sits in the arrays,
    has no influence on the result. *)
Theorem resolution_masks_outliers :
  (forall (a : list (option R)) (dknown : list R),
      RD a dknown
      = zip_with (fun u k => match u with
                             | Some v => if bool_decide (k = 0) then None
                                         else Some ((v - k) / k)
                             | None => None
                             end) a dknown) /\
  (forall a : list (option R), resolution a = std_of_kept (kept a)) /\
  (forall dmeas dknown : list R,
      Res_Raw dmeas dknown
      = std_of_kept
          (filter (fun v => -2 < v < 2)
             (omap (fun u : option R => u)
                (zip_with (fun m k => if bool_decide (k = 0) then None
                                            else Some ((m - k) / k))
                   dmeas dknown)))) /\
  (forall calib (dmeas dknown lsig : list R),
      Res_calib_lsig calib dmeas dknown lsig
      = std_of_kept
          (kept (RD (zip_with fdiv dmeas (map (Rplus 1) (calib lsig)))
                    dknown))) /\
  (forall (a1 a2 : list (option R)) (u : option R),
      match u with Some v => ~ (-2 < v < 2) | None => True end ->
      resolution (a1 ++ u :: a2) = resolution (a1 ++ a2)) /\
  (forall (d1 d2 k1 k2 : list R) (m k : R),
      length d1 = length k1 ->
      k = 0 \/ ~ (-2 < (m - k) / k < 2) ->
      Res_Raw (d1 ++ m :: d2) (k1 ++ k :: k2) = Res_Raw (d1 ++ d2) (k1 ++ k2)).
Proof.
  split; [exact RD_entries|]. split; [exact resolution_kept|].
  split.
  { intros dmeas dknown. unfold Res_Raw.
    now rewrite resolution_kept, RD_measured. }
  split.
  { intros calib dmeas dknown lsig. unfold Res_calib_lsig. cbv zeta.
    apply resolution_kept. }
  assert (Hres : forall a1 a2 u,
             match u with Some v => ~ (-2 < v < 2) | None => True end ->
             resolution (a1 ++ u :: a2) = resolution (a1 ++ a2)).
  { intros a1 a2 u Hu.
    now rewrite !resolution_kept, !kept_app, (kept_outlier u a2 Hu). }
  split; [exact Hres|].
  intros d1 d2 k1 k2 m k Hlen Hout. unfold Res_Raw.
  rewrite !RD_measured, !zip_with_app by exact Hlen.
  cbn [zip_with]. apply Hres.
  destruct (decide (k = 0)) as [Hk|Hk].
  - now rewrite bool_decide_eq_true_2.
  - rewrite bool_decide_eq_false_2 by exact Hk.
    destruct Hout as [Hz|Hr]; [contradiction|exact Hr].
Qed.

End CalibrationProps.

Lemma resolution_masks_outliers_witness :
  Calibration.Res_Raw ([2] ++ 7 :: [3]) ([1] ++ 0 :: [2])
  = Calibration.Res_Raw ([2] ++ [3]) ([1] ++ [2]).
Proof.
  destruct CalibrationProps.resolution_masks_outliers
    as (_ & _ & _ & _ & _ & H).
  apply H; [reflexivity|]. left. reflexivity.
Defined.

Section StdLemmas.

Lemma np_std_nonneg ddof a : 0 <= np_std ddof a.
Proof. unfold np_std. apply sqrt_pos. Qed.

Lemma np_std_eval ddof a :
  np_std ddof a
  = sqrt (np_sum (map (fun v => (v - np_mean a) ^ 2) a)
          / INR (length a - ddof)).
Proof.
  unfold np_std. do 3 f_equal. apply List.map_ext. intros v. ring.
Qed.

End StdLemmas.

Module FisherProps.
Import Fisher.

(** C10: for two samples of at least two elements, one of which has a
    positive sample standard deviation, the separation is symmetric in
    its arguments and nonnegative, and its divisor is positive. *)
Theorem calc_separation_sym_nonneg (x y : list R) :
  (2 <= length x)%nat -> (2 <= length y)%nat ->
  0 < np_std 1 x \/ 0 < np_std 1 y ->
  calc_separation x y = calc_separation y x /\
  0 <= calc_separation x y /\
  0 < sqrt (np_std 1 x ^ 2 + np_std 1 y ^ 2).
Proof.
  intros _ _ Hpos.
  assert (Hx := np_std_nonneg 1 x). assert (Hy := np_std_nonneg 1 y).
  assert (Hden : 0 < sqrt (np_std 1 x ^ 2 + np_std 1 y ^ 2)).
  { apply sqrt_lt_R0. destruct Hpos; nra. }
  split; [|split; [|exact Hden]].
  - unfold calc_separation; cbv zeta.
    rewrite Rabs_minus_sym, (Rplus_comm (np_std 1 x ^ 2)). reflexivity.
  - unfold calc_separation; cbv zeta.
    apply Rmult_le_pos; [apply Rabs_pos|].
    left. now apply Rinv_0_lt_compat.
Qed.

End FisherProps.

Lemma calc_separation_sym_nonneg_witness :
  Fisher.calc_separation [0; 2] [1; 1] = Fisher.calc_separation [1; 1] [0; 2] /\
  0 <= Fisher.calc_separation [0; 2] [1; 1] /\
  0 < sqrt (np_std 1 [0; 2] ^ 2 + np_std 1 [1; 1] ^ 2).
Proof.
  apply FisherProps.calc_separation_sym_nonneg.
  - simpl; lia.
  - simpl; lia.
  - left. rewrite np_std_eval. apply sqrt_lt_R0.
    unfold np_mean, np_sum. simpl. lra.
Defined.

Section ArrayLemmas.

Lemma select_map_filter {A B} (P : A -> Prop) `{!forall a, Decision (P a)}
    (g : A -> B) (l : list A) :
  select (map (fun a => bool_decide (P a)) l) (map g l) = map g (filter P l).
Proof.
  induction l as [|a l IH]; [reflexivity|].
  cbn [map select]. rewrite IH, filter_cons.
  destruct (decide (P a)) as [Ha|Ha].
  - now rewrite (bool_decide_eq_true_2 _ Ha).
  - now rewrite (bool_decide_eq_false_2 _ Ha).
Qed.

Lemma zip_with_map_map {A B C D} (f : B -> C -> D) (g : A -> B) (h : A -> C)
    (l : list A) :
  zip_with f (map g l) (map h l) = map (fun a => f (g a) (h a)) l.
Proof. induction l as [|a l IH]; [reflexivity|]. cbn. now rewrite IH. Qed.

Lemma vdiv_checked_nonzero (a b : list R) :
  Forall (fun d => d <> 0) b -> vdiv_checked a b = Some (vdiv a b).
Proof. intros Hb. unfold vdiv_checked. now rewrite bool_decide_eq_true_2. Qed.

Lemma np_sum_weighted_sq (m : R) (w y : list R) :
  length w = length y ->
  np_sum (vmul w (map (fun v => (v - m) ^ 2) y))
  = np_sum (vmul w (vpow y 2)) - 2 * m * np_sum (vmul w y) + m ^ 2 * np_sum w.
Proof.
  revert y. induction w as [|a w IH]; intros [|b y] Hlen; try discriminate.
  - cbn. ring.
  - injection Hlen as Hlen. specialize (IH y Hlen).
    unfold vmul, vpow, np_sum in *. cbn [zip_with map foldr]. rewrite IH. ring.
Qed.

(** The mean of squares minus the squared mean is the weighted second
    central moment. *)
Lemma weighted_variance (w y : list R) :
  length w = length y -> np_sum w <> 0 ->
  np_sum (vmul w (vpow y 2)) / np_sum w
    - (np_sum (vmul w y) / np_sum w) ^ 2
  = np_sum (vmul w (map (fun v => (v - np_sum (vmul w y) / np_sum w) ^ 2) y))
    / np_sum w.
Proof.
  intros Hlen HW. rewrite (np_sum_weighted_sq _ w y Hlen). now field.
Qed.

End ArrayLemmas.

Section HistogramLemmas.

Lemma length_linspace lo hi n : length (linspace lo hi n) = S n.
Proof. unfold linspace. now rewrite length_map, length_seq. Qed.

Lemma length_centers edges :
  length (Calibration.centers edges) = (length edges - 1)%nat.
Proof.
  unfold Calibration.centers, vscale, vadd.
  rewrite length_map, length_zip_with, length_tl, removelast_firstn_len,
    length_take. lia.
Qed.

Lemma bin_edges_length n range edges :
  bin_edges n range = Some edges -> length edges = S n.
Proof.
  destruct n as [|n]; [discriminate|]. cbn.
  destruct (outer_edges range) as [[smin smax]|]; [|discriminate].
  cbn. intros [= <-]. apply length_linspace.
Qed.

Lemma histogram2d_shape x y bins range H xedges yedges :
  histogram2d x y bins range = Some (H, xedges, yedges) ->
  length H = bins.1 /\ Forall (fun row => length row = bins.2) H /\
  length (Calibration.centers xedges) = bins.1 /\
  length (Calibration.centers yedges) = bins.2.
Proof.
  unfold histogram2d. case_bool_decide; [|discriminate].
  destruct (bin_edges bins.1 range.1) as [xe|] eqn:Hx; [|discriminate].
  destruct (bin_edges bins.2 range.2) as [ye|] eqn:Hy; [|discriminate].
  cbn. intros [= <- <- <-].
  apply bin_edges_length in Hx, Hy.
  rewrite !length_centers, Hx, Hy, length_map, length_seq.
  repeat split; try lia.
  apply Forall_forall. intros row Hrow.
  apply list_elem_of_In, in_map_iff in Hrow as (i & <- & _).
  now rewrite length_map, length_seq.
Qed.

End HistogramLemmas.

Section ProfileLemmas.
Import Calibration.

Lemma map_fst_zip {A B} (a : list A) (b : list B) :
  length a = length b -> map fst (zip a b) = a.
Proof.
  revert b. induction a as [|v a IH]; intros [|w b] Hlen; try discriminate;
    [reflexivity|].
  cbn. f_equal. apply IH. now injection Hlen.
Qed.

Lemma map_snd_zip {A B} (a : list A) (b : list B) :
  length a = length b -> map snd (zip a b) = b.
Proof.
  revert b. induction a as [|v a IH]; intros [|w b] Hlen; try discriminate;
    [reflexivity|].
  cbn. f_equal. apply IH. now injection Hlen.
Qed.

Lemma nonempty_bins_positive H xedges :
  Forall (fun b => 0 < np_sum b.2) (nonempty_bins H xedges).
Proof.
  apply Forall_forall. intros b Hb.
  now apply list_elem_of_filter in Hb as [Hb _].
Qed.

Lemma nonempty_bins_rows H xedges b :
  b ∈ nonempty_bins H xedges -> b.2 ∈ H.
Proof.
  intros Hb. apply list_elem_of_filter in Hb as [_ Hb].
  destruct b as [c row]. now apply elem_of_zip_r in Hb.
Qed.

Lemma select_rows {B} (g : list R -> B) H xedges :
  length (centers xedges) = length H ->
  select (map (fun w => bool_decide (0 < w)) (map np_sum H)) (map g H)
  = map (fun b => g b.2) (nonempty_bins H xedges).
Proof.
  intros Hlen. unfold nonempty_bins.
  rewrite <- (select_map_filter (fun b : R * list R => 0 < np_sum b.2)).
  rewrite <- (map_snd_zip (centers xedges) H Hlen) at 1 2.
  now rewrite !map_map.
Qed.

Lemma select_centers H xedges :
  length (centers xedges) = length H ->
  select (map (fun w => bool_decide (0 < w)) (map np_sum H)) (centers xedges)
  = map fst (nonempty_bins H xedges).
Proof.
  intros Hlen. unfold nonempty_bins.
  rewrite <- (select_map_filter (fun b : R * list R => 0 < np_sum b.2)).
  rewrite <- (map_snd_zip (centers xedges) H Hlen) at 1.
  rewrite <- (map_fst_zip (centers xedges) H Hlen) at 2.
  now rewrite !map_map.
Qed.

(** The result of [profile_x] in closed form: one entry per non-empty
    x-bin, holding its center, its weighted mean and its weighted
    standard deviation over the root of its count. *)
Lemma profile_x_closed_form x y bins xyrange H xedges yedges :
  histogram2d x y bins xyrange = Some (H, xedges, yedges) ->
  profile_x x y bins xyrange
  = let bs := nonempty_bins H xedges in
    let y_center := centers yedges in
    Some (map fst bs,
          map (fun b => bin_mean b.2 y_center) bs,
          map (fun b => bin_std b.2 y_center / sqrt (np_sum b.2)) bs).
Proof.
  intros Hhist. destruct (histogram2d_shape _ _ _ _ _ _ _ Hhist)
    as (HlenH & Hrows & Hxc & Hyc).
  unfold profile_x. rewrite Hhist. cbn [mbind option_bind].
  assert (Hlen : length (centers xedges) = length H) by lia.
  set (yc := centers yedges) in *.
  rewrite (select_centers H xedges Hlen).
  rewrite (select_rows (fun row => np_sum (vmul row yc)) H xedges Hlen).
  rewrite (select_rows (fun row => np_sum (vmul row (vpow yc 2))) H xedges Hlen).
  rewrite (select_rows np_sum H xedges Hlen).
  set (bs := nonempty_bins H xedges).
  assert (Hpos : Forall (fun b : R * list R => 0 < np_sum b.2) bs)
    by apply nonempty_bins_positive.
  assert (Hnz : Forall (fun d => d <> 0)
                  (map (fun b : R * list R => np_sum b.2) bs)).
  { apply Forall_map. eapply Forall_impl; [exact Hpos|]. cbn. intros; lra. }
  rewrite !(vdiv_checked_nonzero _ _ Hnz). cbn [mbind option_bind].
  rewrite vdiv_checked_nonzero.
  2:{ apply Forall_map, Forall_map. eapply Forall_impl; [exact Hpos|]. cbn.
      intros b Hb. apply Rgt_not_eq, sqrt_lt_R0, Hb. }
  cbn [mbind option_bind]. unfold vdiv, vsub, vpow.
  rewrite !zip_with_map_map, !map_map, zip_with_map_map, map_map,
    zip_with_map_map.
  cbv zeta. do 2 f_equal. apply map_ext_in. intros b Hb.
  unfold bin_std, bin_mean. do 2 f_equal.
  apply weighted_variance.
  - apply list_elem_of_In, nonempty_bins_rows in Hb.
    rewrite Forall_forall in Hrows. rewrite (Hrows _ Hb). fold yc. lia.
  - apply list_elem_of_In in Hb. rewrite Forall_forall in Hpos.
    specialize (Hpos _ Hb). lra.
Qed.

End ProfileLemmas.

Section ProfileExample.
Import Calibration.

Lemma linspace_0_2 : linspace 0 2 2 = [0; 1; 2].
Proof. unfold linspace. simpl. repeat f_equal; lra. Qed.

Lemma linspace_m1_1 : linspace (-1) 1 2 = [-1; 0; 1].
Proof. unfold linspace. simpl. repeat f_equal; lra. Qed.

Lemma bin_number_x : bin_number [0; 1; 2] 0.5 = 1%nat.
Proof.
  unfold bin_number, searchsorted_right. cbn [last filter list_filter].
  Rdec. reflexivity.
Qed.

Lemma bin_number_y_lo : bin_number [-1; 0; 1] (-0.5) = 1%nat.
Proof.
  unfold bin_number, searchsorted_right. cbn [last filter list_filter].
  Rdec. reflexivity.
Qed.

Lemma bin_number_y_hi : bin_number [-1; 0; 1] 0.5 = 2%nat.
Proof.
  unfold bin_number, searchsorted_right. cbn [last filter list_filter].
  Rdec. reflexivity.
Qed.

Lemma histogram2d_sample :
  histogram2d x_sample y_sample (2%nat, 2%nat) ((0, 2), (-1, 1))
  = Some ([[2; 2]; [0; 0]], [0; 1; 2], [-1; 0; 1]).
Proof.
  unfold histogram2d, bin_edges, outer_edges. cbn [fst snd].
  rewrite (bool_decide_eq_true_2 _ (eq_refl : length x_sample = length y_sample)).
  Rdec. cbn [mbind option_bind].
  rewrite linspace_0_2, linspace_m1_1.
  unfold x_sample, y_sample.
  cbn [zip zip_with seq map filter list_filter fst snd].
  rewrite bin_number_x, bin_number_y_lo, bin_number_y_hi.
  vm_compute length.
  repeat f_equal; simpl; lra.
Qed.

Lemma nonempty_bins_sample :
  nonempty_bins [[2; 2]; [0; 0]] [0; 1; 2] = [(0.5 * (1 + 0), [2; 2])].
Proof.
  unfold nonempty_bins, centers, vscale, vadd, np_sum.
  cbn [tail removelast zip_with map zip filter list_filter foldr snd].
  Rdec. reflexivity.
Qed.

Lemma sqrt_quarter : sqrt (1 / 4) = 1 / 2.
Proof.
  replace (1 / 4) with ((1 / 2) * (1 / 2)) by lra. apply sqrt_square. lra.
Qed.

Lemma sqrt_four : sqrt 4 = 2.
Proof. replace 4 with (2 * 2) by lra. apply sqrt_square. lra. Qed.

Lemma bin_mean_sample : bin_mean [2; 2] (centers [-1; 0; 1]) = 0.
Proof. unfold bin_mean, centers, vscale, vadd, vmul, np_sum. simpl. lra. Qed.

Lemma bin_std_sample : bin_std [2; 2] (centers [-1; 0; 1]) = 1 / 2.
Proof.
  unfold bin_std. rewrite bin_mean_sample, <- sqrt_quarter. f_equal.
  unfold centers, vscale, vadd, vmul, np_sum. simpl. lra.
Qed.

(** A run with one populated and one empty x-bin: the empty bin is
    dropped, and the third array holds 1/4 where the standard deviation
    of the bin is 1/2. *)
Lemma profile_x_sample :
  profile_x x_sample y_sample (2%nat, 2%nat) ((0, 2), (-1, 1))
  = Some ([1 / 2], [0], [1 / 4]).
Proof.
  rewrite (profile_x_closed_form _ _ _ _ _ _ _ histogram2d_sample).
  cbv zeta. rewrite nonempty_bins_sample. cbn [map fst snd].
  rewrite bin_mean_sample, bin_std_sample.
  replace (np_sum [2; 2]) with 4 by (unfold np_sum; simpl; lra).
  rewrite sqrt_four. Rlist.
Qed.

Lemma profile_x_std_spec_sample :
  profile_x_std_spec x_sample y_sample (2%nat, 2%nat) ((0, 2), (-1, 1))
  = Some ([1 / 2], [0], [1 / 2]).
Proof.
  unfold profile_x_std_spec. rewrite histogram2d_sample.
  cbn [mbind option_bind]. rewrite nonempty_bins_sample. cbn [map fst snd].
  rewrite bin_mean_sample, bin_std_sample. Rlist.
Qed.

End ProfileExample.

Module ProfileProps.
Import Calibration.

(** C1: the notebook describes [profile_x] as returning the means and
    the standard deviations of y per x-bin, and names the third array
    [std]; the code divides that standard deviation by the root of the
    bin count.  On four samples in one x-bin, two in each of two
    y-bins, the third returned array is 1/4 while the standard
    deviation of y in that bin is 1/2. *)
Lemma profile_x_not_standard_deviation :
  profile_x x_sample y_sample (2%nat, 2%nat) ((0, 2), (-1, 1))
  <> profile_x_std_spec x_sample y_sample (2%nat, 2%nat) ((0, 2), (-1, 1)).
Proof.
  rewrite profile_x_sample, profile_x_std_spec_sample.
  intros [=]. lra.
Qed.

(** What [profile_x] returns instead: it is a function of its
    arguments alone that fails exactly when [np.histogram2d] does, and
    otherwise returns, for each x-bin of positive count, the bin
    center, the mean of the y-bin centers weighted by the counts of
    that x-bin, and their weighted standard deviation divided by the
    square root of the count of the x-bin (the standard error of the
    mean). *)
Theorem profile_x_mean_and_standard_error x y bins xyrange :
  profile_x x y bins xyrange
  = match histogram2d x y bins xyrange with
    | None => None
    | Some (H, xedges, yedges) =>
        let bs := nonempty_bins H xedges in
        let y_center := centers yedges in
        Some (map fst bs,
              map (fun b => bin_mean b.2 y_center) bs,
              map (fun b => bin_std b.2 y_center / sqrt (np_sum b.2)) bs)
    end.
Proof.
  destruct (histogram2d x y bins xyrange) as [[[H xedges] yedges]|] eqn:Hhist.
  - now apply profile_x_closed_form.
  - unfold profile_x. now rewrite Hhist.
Qed.

(** C7: whenever the histogram exists, [profile_x] returns three arrays
    of one length, with one entry per x-bin of positive count (the bins
    of zero count appear in none of them); every divisor it uses, the
    selected counts and their square roots, is strictly positive, so no
    division fails. *)
Theorem profile_x_no_zero_division x y bins xyrange :
  match histogram2d x y bins xyrange with
  | None => profile_x x y bins xyrange = None
  | Some (H, xedges, yedges) =>
      let wsums := map np_sum H in
      let mask := map (fun w => bool_decide (0 < w)) wsums in
      Forall (fun d => 0 < d) (select mask wsums) /\
      Forall (fun d => 0 < d) (map sqrt (select mask wsums)) /\
      exists x_center mean std,
        profile_x x y bins xyrange = Some (x_center, mean, std) /\
        x_center = select mask (centers xedges) /\
        length x_center = length (filter (fun w => 0 < w) wsums) /\
        length mean = length x_center /\
        length std = length x_center
  end.
Proof.
  destruct (histogram2d x y bins xyrange) as [[[H xedges] yedges]|] eqn:Hhist.
  2:{ unfold profile_x. now rewrite Hhist. }
  destruct (histogram2d_shape _ _ _ _ _ _ _ Hhist) as (HlenH & _ & Hxc & _).
  assert (Hlen : length (centers xedges) = length H) by lia.
  cbv zeta.
  assert (Hsel : Forall (fun d => 0 < d)
            (select (map (fun w => bool_decide (0 < w)) (map np_sum H))
                    (map np_sum H))).
  { rewrite (select_rows np_sum H xedges Hlen). apply Forall_map.
    apply nonempty_bins_positive. }
  split; [exact Hsel|]. split.
  { apply Forall_map. eapply Forall_impl; [exact Hsel|].
    intros d Hd. now apply sqrt_lt_R0. }
  rewrite (profile_x_closed_form _ _ _ _ _ _ _ Hhist). cbv zeta.
  eexists _, _, _. split; [reflexivity|].
  rewrite (select_centers H xedges Hlen). split; [reflexivity|].
  rewrite !length_map. repeat split.
  rewrite <- (length_map (fun b : R * list R => np_sum b.2)).
  rewrite <- (select_rows np_sum H xedges Hlen).
  rewrite <- (map_id (map np_sum H)) at 2.
  now rewrite (select_map_filter (fun w => 0 < w) id), map_id.
Qed.

End ProfileProps.

Section SumLemmas.

Lemma np_sum_app (a b : list R) : np_sum (a ++ b) = np_sum a + np_sum b.
Proof.
  unfold np_sum. induction a as [|v a IH]; cbn [app foldr]; [lra|].
  rewrite IH. lra.
Qed.

Lemma np_sum_squares_nonneg (f : R -> R) (a : list R) :
  0 <= np_sum (map (fun v => f v ^ 2) a).
Proof.
  unfold np_sum. induction a as [|v a IH]; cbn [map foldr]; [lra|].
  assert (0 <= f v ^ 2) by apply pow2_ge_0. lra.
Qed.

Lemma np_sum_line_squares (da db : R) (x : list R) :
  np_sum (map (fun v => (da + db * v) ^ 2) x)
  = INR (length x) * da ^ 2 + 2 * da * db * np_sum x
    + db ^ 2 * np_sum (vpow x 2).
Proof.
  unfold np_sum, vpow. induction x as [|v x IH]; [cbn; ring|].
  cbn [map length foldr]. rewrite S_INR, IH. ring.
Qed.

Lemma lookup_map {A B} (f : A -> B) (l : list A) (i : nat) :
  map f l !! i = f <$> l !! i.
Proof.
  revert i. induction l as [|a l IH]; intros [|i]; try reflexivity. apply IH.
Qed.

End SumLemmas.

Section Int64Lemmas.

Lemma int64_range z : fits_int64 (int64 z).
Proof.
  unfold fits_int64, int64.
  pose proof (Z.mod_pos_bound (z + 2 ^ 63) (2 ^ 64)). lia.
Qed.

Lemma int64_fits z : fits_int64 z -> int64 z = z.
Proof.
  unfold fits_int64, int64. intros Hz.
  rewrite Z.mod_small by lia. lia.
Qed.

Lemma int64_congr a b : (a mod 2 ^ 64 = b mod 2 ^ 64)%Z -> int64 a = int64 b.
Proof.
  intros Hab. unfold int64. f_equal.
  rewrite (Zplus_mod a), (Zplus_mod b), Hab. reflexivity.
Qed.

Lemma int64_mod z : (int64 z mod 2 ^ 64 = z mod 2 ^ 64)%Z.
Proof.
  unfold int64.
  rewrite Zminus_mod_idemp_l.
  replace (z + 2 ^ 63 - 2 ^ 63)%Z with z by lia. reflexivity.
Qed.

Lemma int64_add_l a b : int64 (int64 a + b) = int64 (a + b).
Proof.
  apply int64_congr.
  now rewrite (Zplus_mod (int64 a)), int64_mod, <- Zplus_mod.
Qed.

Lemma int64_add_r a b : int64 (a + int64 b) = int64 (a + b).
Proof. now rewrite Z.add_comm, int64_add_l, Z.add_comm. Qed.

Lemma int64_mul_l a b : int64 (int64 a * b) = int64 (a * b).
Proof.
  apply int64_congr.
  now rewrite (Zmult_mod (int64 a)), int64_mod, <- Zmult_mod.
Qed.

Lemma int64_sub a b : int64 (int64 a - int64 b) = int64 (a - b).
Proof.
  apply int64_congr.
  now rewrite (Zminus_mod (int64 a)), !int64_mod, <- Zminus_mod.
Qed.

Lemma int64_square a : int64 (int64 a ^ 2) = int64 (a ^ 2).
Proof.
  apply int64_congr. rewrite !Z.pow_2_r.
  now rewrite (Zmult_mod (int64 a)), int64_mod, <- Zmult_mod.
Qed.

Lemma int64_idemp a : int64 (int64 a) = int64 a.
Proof. apply int64_fits, int64_range. Qed.

Lemma int_sum_Zsum (a : list Z) : int_sum a = int64 (Zsum a).
Proof.
  unfold int_sum, Zsum. induction a as [|v a IH]; [reflexivity|].
  cbn [foldr]. now rewrite IH, int64_add_r.
Qed.

Lemma Zsum_app (a b : list Z) : Zsum (a ++ b) = (Zsum a + Zsum b)%Z.
Proof.
  unfold Zsum. induction a as [|v a IH]; cbn [app foldr]; [lia|].
  rewrite IH. lia.
Qed.

Lemma int_sum_square (a : list Z) :
  int_sum (int_square a) = int64 (Zsum (map (fun v => v ^ 2)%Z a)).
Proof.
  rewrite int_sum_Zsum. apply int64_congr. unfold int_square, Zsum.
  induction a as [|v a IH]; [reflexivity|]. cbn [map foldr].
  now rewrite Zplus_mod, IH, int64_mod, <- Zplus_mod.
Qed.

Lemma int_sum_wrapped (a : list Z) :
  int_sum (map int64 a) = int64 (Zsum a).
Proof.
  rewrite int_sum_Zsum. apply int64_congr. unfold Zsum.
  induction a as [|v a IH]; [reflexivity|]. cbn [map foldr].
  now rewrite Zplus_mod, IH, int64_mod, <- Zplus_mod.
Qed.

Lemma int_sum_square_wrapped (a : list Z) :
  int_sum (int_square (map int64 a)) = int64 (Zsum (map (fun v => v ^ 2)%Z a)).
Proof.
  rewrite int_sum_square. apply int64_congr. unfold Zsum.
  induction a as [|v a IH]; [reflexivity|]. cbn [map foldr].
  rewrite Zplus_mod, IH, <- (int64_mod (int64 v ^ 2)), int64_square, int64_mod.
  now rewrite <- Zplus_mod.
Qed.

Lemma IZR_Zsum (a : list Z) : IZR (Zsum a) = np_sum (map IZR a).
Proof.
  unfold Zsum, np_sum. induction a as [|v a IH]; [reflexivity|].
  cbn [map foldr]. now rewrite plus_IZR, IH.
Qed.

Lemma IZR_Zsum_squares (a : list Z) :
  IZR (Zsum (map (fun v => v ^ 2)%Z a)) = np_sum (vpow (map IZR a) 2).
Proof.
  unfold Zsum, np_sum, vpow. induction a as [|v a IH]; [reflexivity|].
  cbn [map foldr]. rewrite plus_IZR, IH. f_equal.
  rewrite Z.pow_2_r, mult_IZR. ring.
Qed.

End Int64Lemmas.

Section LinearFitLemmas.
Import LinearFit.

Lemma fdiv_nonzero (a b : R) : b <> 0 -> fdiv a b = Some (a / b).
Proof. intros Hb. unfold fdiv. now rewrite bool_decide_eq_false_2. Qed.

Lemma chi2_loop_prefix a0 a1 sigmay (x : list Z) (y : list R) n :
  sigmay <> 0 -> length y = length x -> (n <= length x)%nat ->
  foldl (chi2_step a0 a1 x y (vscale sigmay (map (fun _ => 1) x)))
    (Some 0) (seq 0 n)
  = Some (np_sum (take n
      (zip_with (fun xi yi => ((yi - (a0 + a1 * xi)) / sigmay) ^ 2)
         (map IZR x) y))).
Proof.
  intros Hs Hlen. induction n as [|n IH]; intros Hn; [reflexivity|].
  rewrite seq_S, foldl_app, IH by lia. cbn [foldl Nat.add].
  destruct (lookup_lt_is_Some_2 x n) as [xi Hxi]; [lia|].
  destruct (lookup_lt_is_Some_2 y n) as [yi Hyi]; [lia|].
  unfold chi2_step. cbn [mbind option_bind]. rewrite Hxi, Hyi.
  cbn [mbind option_bind].
  assert (Hey : vscale sigmay (map (fun _ => 1) x) !! n = Some (sigmay * 1)).
  { unfold vscale. rewrite !lookup_map, Hxi. reflexivity. }
  rewrite Hey. cbn [mbind option_bind].
  rewrite fdiv_nonzero by lra. cbn [mbind option_bind].
  erewrite take_S_r.
  2:{ rewrite lookup_zip_with, lookup_map, Hxi. cbn. rewrite Hyi. reflexivity. }
  rewrite np_sum_app. unfold np_sum at 3. cbn [foldr].
  f_equal. rewrite Rmult_1_r. ring.
Qed.

Lemma chi2_loop_total a0 a1 sigmay (x : list Z) (y : list R) :
  sigmay <> 0 -> length y = length x ->
  foldl (chi2_step a0 a1 x y (vscale sigmay (map (fun _ => 1) x)))
    (Some 0) (seq 0 (length x))
  = Some (chi2_of (map IZR x) y sigmay a0 a1).
Proof.
  intros Hs Hlen. rewrite chi2_loop_prefix by (lia || assumption).
  rewrite firstn_all2; [reflexivity|].
  rewrite length_zip_with, length_map. lia.
Qed.

Lemma chi2_of_expand (x y : list R) sigmay a b :
  length y = length x ->
  chi2_of x y sigmay a b
  = (/ sigmay) ^ 2 *
    (np_sum (vpow y 2) - 2 * a * np_sum y - 2 * b * np_sum (vmul x y)
     + INR (length x) * a ^ 2 + 2 * a * b * np_sum x
     + b ^ 2 * np_sum (vpow x 2)).
Proof.
  revert y. induction x as [|xi x IH]; intros [|yi y] Hlen; try discriminate.
  - cbn. ring.
  - injection Hlen as Hlen. specialize (IH y Hlen).
    cbn [length]. rewrite S_INR.
    unfold chi2_of, np_sum, vpow, vmul in *. cbn [zip_with map foldr].
    rewrite IH. unfold Rdiv. ring.
Qed.

(** The two normal equations, from the closed formulas. *)
Lemma normal_equations (n sumx sumxx sumy sumxy : R) :
  sumxx * n - sumx ^ 2 <> 0 ->
  let Delta := sumxx * n - sumx ^ 2 in
  let a0 := (sumy * sumxx - sumxy * sumx) / Delta in
  let a1 := (sumxy * n - sumy * sumx) / Delta in
  sumy = n * a0 + a1 * sumx /\ sumxy = a0 * sumx + a1 * sumxx.
Proof. intros HD. cbv zeta. split; field; exact HD. Qed.

(** A line through the data is never better than the fitted one. *)
Lemma chi2_of_minimal (x y : list R) sigmay a0 a1 a b :
  length y = length x ->
  np_sum y = INR (length x) * a0 + a1 * np_sum x ->
  np_sum (vmul x y) = a0 * np_sum x + a1 * np_sum (vpow x 2) ->
  chi2_of x y sigmay a0 a1 <= chi2_of x y sigmay a b.
Proof.
  intros Hlen H1 H2. rewrite !chi2_of_expand by assumption.
  assert (Hsq := np_sum_squares_nonneg (fun v => (a - a0) + (b - a1) * v) x).
  cbv beta in Hsq. rewrite np_sum_line_squares in Hsq.
  assert (Hk : 0 <= (/ sigmay) ^ 2) by apply pow2_ge_0.
  rewrite H1, H2.
  apply Rmult_le_compat_l; [exact Hk|]. nra.
Qed.

Lemma Delta_of_wraps (x : list Z) : Delta_of x = int64 (Delta_exact x).
Proof.
  unfold Delta_of, Delta_exact.
  now rewrite int_sum_square, int_sum_Zsum, int64_mul_l, int64_square, int64_sub.
Qed.

Lemma Delta_of_no_overflow (x : list Z) :
  fits_int64 (Delta_exact x) -> Delta_of x = Delta_exact x.
Proof. intros H. rewrite Delta_of_wraps. now apply int64_fits. Qed.

Lemma IZR_Delta_exact (x : list Z) :
  IZR (Delta_exact x)
  = np_sum (vpow (map IZR x) 2) * INR (length x) - np_sum (map IZR x) ^ 2.
Proof.
  unfold Delta_exact.
  rewrite minus_IZR, mult_IZR, Z.pow_2_r, mult_IZR.
  rewrite IZR_Zsum_squares, IZR_Zsum, <- INR_IZR_INZ. ring.
Qed.

(** The fit, once the two sums over [x] are known not to wrap. *)
Lemma analytical_fit_eval chi2_sf (x : list Z) (y : list R) sigmay :
  length y = length x ->
  fits_int64 (Zsum x) -> fits_int64 (Zsum (map (fun v => v ^ 2)%Z x)) ->
  Delta_of x <> 0%Z -> sigmay <> 0 ->
  let xs := map IZR x in
  let D := IZR (Delta_of x) in
  let a0 := (np_sum y * np_sum (vpow xs 2) - np_sum (vmul xs y) * np_sum xs) / D in
  let a1 := (np_sum (vmul xs y) * INR (length x) - np_sum y * np_sum xs) / D in
  exists f,
    analytical_fit chi2_sf x y sigmay = Some f /\
    alpha0_calc f = a0 /\ alpha1_calc f = a1 /\
    Chi2_calc f = chi2_of xs y sigmay a0 a1 /\
    Ndof_calc f = (Z.of_nat (length x) - 2)%Z /\
    Prob_calc f = chi2_sf (Chi2_calc f) (Ndof_calc f).
Proof.
  intros Hlen Hsx Hsxx HD Hs. cbv zeta. unfold analytical_fit. cbv zeta.
  change (int64 (int64 (int_sum (int_square x) * Z.of_nat (length x))
                 - int64 (int_sum x ^ 2))) with (Delta_of x).
  assert (HDr : IZR (Delta_of x) <> 0) by now apply not_0_IZR.
  rewrite !fdiv_nonzero by exact HDr. cbn [mbind option_bind].
  rewrite chi2_loop_total by assumption. cbn [mbind option_bind].
  eexists. split; [reflexivity|].
  cbn [alpha0_calc alpha1_calc Chi2_calc Ndof_calc Prob_calc].
  rewrite int_sum_square, int_sum_Zsum, !int64_fits by assumption.
  rewrite IZR_Zsum_squares, IZR_Zsum, <- INR_IZR_INZ.
  repeat split; reflexivity.
Qed.

End LinearFitLemmas.

Section GeneratedDataLemmas.
Import LinearFit.

Lemma arange_S N : arange (S N) = arange N ++ [Z.of_nat N].
Proof. unfold arange. now rewrite seq_S, map_app. Qed.

Lemma length_arange N : length (arange N) = N.
Proof. unfold arange. now rewrite length_map, length_seq. Qed.

Lemma length_generate_x N : length (generate_x N) = N.
Proof. unfold generate_x. now rewrite length_map, length_arange. Qed.

Lemma generate_x_wrapped N :
  generate_x N = map int64 (map (fun v => v + 1)%Z (arange N)).
Proof. unfold generate_x. now rewrite map_map. Qed.

Lemma generate_x_fits N :
  (Z.of_nat N < 2 ^ 63)%Z ->
  generate_x N = map (fun v => v + 1)%Z (arange N).
Proof.
  intros HN. unfold generate_x, arange. rewrite !map_map.
  apply List.map_ext_in. intros i Hi. apply in_seq in Hi.
  apply int64_fits. unfold fits_int64. lia.
Qed.

Lemma Zsum_first N :
  (2 * Zsum (map (fun v => v + 1) (arange N))
   = Z.of_nat N * (Z.of_nat N + 1))%Z.
Proof.
  induction N as [|N IH]; [reflexivity|].
  rewrite arange_S, map_app, Zsum_app. cbn [map]. unfold Zsum at 2.
  cbn [foldr]. rewrite Nat2Z.inj_succ. lia.
Qed.

Lemma Zsum_first_squares N :
  (6 * Zsum (map (fun v => v ^ 2) (map (fun v => v + 1) (arange N)))
   = Z.of_nat N * (Z.of_nat N + 1) * (2 * Z.of_nat N + 1))%Z.
Proof.
  induction N as [|N IH]; [reflexivity|].
  rewrite arange_S, !map_app, Zsum_app. cbn [map]. unfold Zsum at 2.
  cbn [foldr]. rewrite Nat2Z.inj_succ. lia.
Qed.

Lemma Delta_exact_first N :
  (12 * Delta_exact (map (fun v => v + 1) (arange N))
   = Z.of_nat N ^ 2 * (Z.of_nat N ^ 2 - 1))%Z.
Proof.
  unfold Delta_exact. rewrite length_map, length_arange.
  assert (H1 := Zsum_first N). assert (H2 := Zsum_first_squares N).
  set (S2 := Zsum (map _ (map _ _))) in *. set (S1 := Zsum _) in *.
  set (n := Z.of_nat N) in *.
  replace (12 * (S2 * n - S1 ^ 2))%Z
    with (2 * n * (6 * S2) - 3 * (2 * S1) ^ 2)%Z by ring.
  rewrite H1, H2. ring.
Qed.

Lemma Delta_exact_first_div N :
  Delta_exact (map (fun v => v + 1)%Z (arange N))
  = (Z.of_nat N ^ 2 * (Z.of_nat N ^ 2 - 1) / 12)%Z.
Proof.
  apply Z.div_unique_exact; [lia|]. symmetry. apply Delta_exact_first.
Qed.

Lemma Delta_of_generate_x N :
  Delta_of (generate_x N)
  = int64 (Z.of_nat N ^ 2 * (Z.of_nat N ^ 2 - 1) / 12).
Proof.
  rewrite <- Delta_exact_first_div. unfold Delta_of, Delta_exact.
  rewrite generate_x_wrapped, int_sum_square_wrapped, int_sum_wrapped.
  rewrite !length_map.
  now rewrite int64_mul_l, int64_square, int64_sub.
Qed.

Lemma Delta_first_monotone (n m : Z) :
  (0 <= n <= m)%Z -> (n ^ 2 * (n ^ 2 - 1) <= m ^ 2 * (m ^ 2 - 1))%Z.
Proof.
  intros Hnm. assert (Hsq : (n ^ 2 <= m ^ 2)%Z) by (apply Z.pow_le_mono_l; lia).
  assert (0 <= n ^ 2)%Z by nia.
  nia.
Qed.

End GeneratedDataLemmas.

Section LargeDatasetLemmas.
Import LinearFit.

Lemma Npoints_large_Z : Z.of_nat Npoints_large = 110000%Z.
Proof. unfold Npoints_large. apply Z2Nat.id. lia. Qed.

Lemma generate_x_large :
  generate_x Npoints_large = map (fun v => v + 1)%Z (arange Npoints_large).
Proof. apply generate_x_fits. rewrite Npoints_large_Z. lia. Qed.

Lemma Zsum_large : Zsum (generate_x Npoints_large) = 6050055000%Z.
Proof.
  assert (H := Zsum_first Npoints_large).
  rewrite <- generate_x_large, Npoints_large_Z in H. lia.
Qed.

Lemma Zsum_squares_large :
  Zsum (map (fun v => v ^ 2)%Z (generate_x Npoints_large))
  = 443672716685000%Z.
Proof.
  assert (H := Zsum_first_squares Npoints_large).
  rewrite <- generate_x_large, Npoints_large_Z in H. lia.
Qed.

Lemma Delta_exact_large :
  Delta_exact (generate_x Npoints_large) = 12200833332325000000%Z.
Proof.
  assert (H := Delta_exact_first Npoints_large).
  rewrite <- generate_x_large, Npoints_large_Z in H. lia.
Qed.

Lemma Delta_of_large :
  Delta_of (generate_x Npoints_large) = (-6245910741384551616)%Z.
Proof. rewrite Delta_of_wraps, Delta_exact_large. reflexivity. Qed.

End LargeDatasetLemmas.

Section FitLemmas.
Import LinearFit.

Lemma Delta_in_range (x : list Z) :
  no_overflow x -> Delta_of x <> 0%Z ->
  IZR (Delta_of x)
  = np_sum (vpow (map IZR x) 2) * INR (length x) - np_sum (map IZR x) ^ 2 /\
  np_sum (vpow (map IZR x) 2) * INR (length x) - np_sum (map IZR x) ^ 2 <> 0.
Proof.
  intros (_ & _ & HD) Hnz.
  assert (E : IZR (Delta_of x)
              = np_sum (vpow (map IZR x) 2) * INR (length x)
                - np_sum (map IZR x) ^ 2).
  { now rewrite Delta_of_no_overflow, IZR_Delta_exact. }
  split; [exact E|]. rewrite <- E. now apply not_0_IZR.
Qed.

Lemma scaled_normal_equations (n sumx sumxx sumy sumxy D : R) :
  D <> 0 ->
  let a0 := (sumy * sumxx - sumxy * sumx) / D in
  let a1 := (sumxy * n - sumy * sumx) / D in
  n * a0 + a1 * sumx = (sumxx * n - sumx ^ 2) / D * sumy /\
  a0 * sumx + a1 * sumxx = (sumxx * n - sumx ^ 2) / D * sumxy.
Proof. intros HD. cbv zeta. split; field; exact HD. Qed.

Lemma generate_y_reals a0 a1 (x : list Z) (noise : list R) :
  generate_y a0 a1 x noise
  = vadd (map (fun v => a0 + a1 * v) (map IZR x)) noise.
Proof. unfold generate_y. now rewrite map_map. Qed.

Lemma np_sum_line_plus a0 a1 (x noise : list R) :
  length noise = length x ->
  np_sum (vadd (map (fun v => a0 + a1 * v) x) noise)
  = INR (length x) * a0 + a1 * np_sum x + np_sum noise.
Proof.
  unfold vadd, np_sum. revert noise.
  induction x as [|v x IH]; intros [|e noise] Hlen; try discriminate.
  - cbn. ring.
  - injection Hlen as Hlen. cbn [map zip_with foldr length].
    rewrite S_INR, IH by exact Hlen. ring.
Qed.

Lemma np_sum_x_line_plus a0 a1 (x noise : list R) :
  length noise = length x ->
  np_sum (vmul x (vadd (map (fun v => a0 + a1 * v) x) noise))
  = a0 * np_sum x + a1 * np_sum (vpow x 2) + np_sum (vmul x noise).
Proof.
  unfold vadd, vmul, vpow, np_sum. revert noise.
  induction x as [|v x IH]; intros [|e noise] Hlen; try discriminate.
  - cbn. ring.
  - injection Hlen as Hlen. cbn [map zip_with foldr].
    rewrite IH by exact Hlen. ring.
Qed.

Lemma chi2_of_line_plus a0 a1 (x noise : list R) sigmay a b :
  length noise = length x ->
  chi2_of x (vadd (map (fun v => a0 + a1 * v) x) noise) sigmay
    (a0 + a) (a1 + b)
  = chi2_of x noise sigmay a b.
Proof.
  unfold chi2_of, vadd, np_sum. revert noise.
  induction x as [|v x IH]; intros [|e noise] Hlen; try discriminate;
    [reflexivity|].
  injection Hlen as Hlen. cbn [map zip_with foldr]. rewrite (IH noise Hlen).
  f_equal. unfold Rdiv. ring.
Qed.

Lemma length_generate_y a0 a1 (x : list Z) (noise : list R) :
  length noise = length x -> length (generate_y a0 a1 x noise) = length x.
Proof.
  intros Hlen. unfold generate_y, vadd.
  rewrite length_zip_with, length_map. lia.
Qed.

Lemma np_sum_zero_noise {A} (x : list A) : np_sum (map (fun _ => 0) x) = 0.
Proof.
  unfold np_sum. induction x as [|v x IH]; [reflexivity|].
  cbn [map foldr]. rewrite IH. ring.
Qed.

Lemma np_sum_vmul_zero_noise {A} (xs : list R) (x : list A) :
  np_sum (vmul xs (map (fun _ => 0) x)) = 0.
Proof.
  unfold np_sum, vmul. revert xs.
  induction x as [|v x IH]; intros [|w xs]; try reflexivity.
  cbn [map zip_with foldr]. rewrite IH. ring.
Qed.

Lemma chi2_of_zero_noise {A} (xs : list R) (x : list A) sigmay :
  chi2_of xs (map (fun _ => 0) x) sigmay 0 0 = 0.
Proof.
  unfold chi2_of, np_sum. revert xs.
  induction x as [|v x IH]; intros [|w xs]; try reflexivity.
  cbn [map zip_with foldr]. rewrite IH. unfold Rdiv. ring.
Qed.

(** As long as none of the three integers of the fit wraps around, and
    for [Delta <> 0] and [sigmay <> 0], the analytical fit returns
    parameters that satisfy both normal equations and minimise the sum
    of squared weighted residuals over all lines; [Chi2_calc] is that
    sum at the fitted parameters, [Ndof_calc] is n - 2, and [Prob_calc]
    is the chi-square survival function at [Chi2_calc] with
    [Ndof_calc] degrees of freedom. *)
Lemma analytical_fit_least_squares_in_range (chi2_sf : R -> Z -> R)
    (x : list Z) (y : list R) (sigmay : R) :
  length y = length x -> no_overflow x ->
  Delta_of x <> 0%Z -> sigmay <> 0 ->
  let xs := map IZR x in
  exists f,
    analytical_fit chi2_sf x y sigmay = Some f /\
    np_sum y = INR (length x) * alpha0_calc f + alpha1_calc f * np_sum xs /\
    np_sum (vmul xs y)
      = alpha0_calc f * np_sum xs + alpha1_calc f * np_sum (vpow xs 2) /\
    (forall a b, chi2_of xs y sigmay (alpha0_calc f) (alpha1_calc f)
                 <= chi2_of xs y sigmay a b) /\
    Chi2_calc f = chi2_of xs y sigmay (alpha0_calc f) (alpha1_calc f) /\
    Ndof_calc f = (Z.of_nat (length x) - 2)%Z /\
    Prob_calc f = chi2_sf (Chi2_calc f) (Ndof_calc f).
Proof.
  intros Hlen Hfit Hnz Hs xs.
  destruct (Delta_in_range x Hfit Hnz) as [HD HDnz]. fold xs in HD, HDnz.
  destruct Hfit as (Hsx & Hsxx & _).
  destruct (analytical_fit_eval chi2_sf x y sigmay Hlen Hsx Hsxx Hnz Hs)
    as (f & Hf & H0 & H1 & Hc & Hn & Hp).
  cbv zeta in H0, H1, Hc. fold xs in H0, H1, Hc. rewrite HD in H0, H1, Hc.
  destruct (normal_equations (INR (length x)) (np_sum xs) (np_sum (vpow xs 2))
              (np_sum y) (np_sum (vmul xs y)) HDnz) as [N1 N2].
  cbv zeta in N1, N2. rewrite <- H0, <- H1 in N1, N2.
  exists f. split; [exact Hf|]. split; [exact N1|]. split; [exact N2|].
  split.
  { assert (Hlx : length xs = length x) by (unfold xs; apply length_map).
    intros a b. apply chi2_of_minimal; [congruence| |exact N2].
    rewrite Hlx. exact N1. }
  split; [|split; assumption].
  now rewrite Hc, H0, H1.
Qed.

End FitLemmas.

Module LinearFitProps.
Import LinearFit.

(** C5: with [Npoints = 110000] the integer [Delta] wraps around:
    instead of 12200833332325000000 the cell computes
    -6245910741384551616.  The fit still returns, but its parameters
    solve the normal equations with the right-hand sides multiplied by
    the quotient of the two numbers (about -1.95): the first normal
    equation fails for every [y] whose sum is not zero, and data that
    lie exactly on a line give its intercept and slope multiplied by
    that quotient. *)
Theorem analytical_fit_wraps_around (chi2_sf : R -> Z -> R)
    (y : list R) (sigmay : R) :
  length y = Npoints_large -> sigmay <> 0 ->
  let x := generate_x Npoints_large in
  let xs := map IZR x in
  let kappa := 12200833332325000000 / -6245910741384551616 in
  Delta_exact x = 12200833332325000000%Z /\
  Delta_of x = (-6245910741384551616)%Z /\
  exists f,
    analytical_fit chi2_sf x y sigmay = Some f /\
    INR (length x) * alpha0_calc f + alpha1_calc f * np_sum xs
      = kappa * np_sum y /\
    alpha0_calc f * np_sum xs + alpha1_calc f * np_sum (vpow xs 2)
      = kappa * np_sum (vmul xs y) /\
    (np_sum y <> 0 ->
     np_sum y <> INR (length x) * alpha0_calc f + alpha1_calc f * np_sum xs) /\
    (forall alpha0 alpha1,
        y = generate_y alpha0 alpha1 x (map (fun _ => 0) x) ->
        alpha0_calc f = kappa * alpha0 /\ alpha1_calc f = kappa * alpha1).
Proof.
  intros Hlen Hs x xs kappa.
  split; [exact Delta_exact_large|]. split; [exact Delta_of_large|].
  assert (Hlx : length x = Npoints_large) by apply length_generate_x.
  assert (Hn : INR (length x) = 110000).
  { now rewrite Hlx, INR_IZR_INZ, Npoints_large_Z. }
  assert (Hsx : np_sum xs = 6050055000).
  { unfold xs, x. now rewrite <- IZR_Zsum, Zsum_large. }
  assert (Hsxx : np_sum (vpow xs 2) = 443672716685000).
  { unfold xs, x. now rewrite <- IZR_Zsum_squares, Zsum_squares_large. }
  assert (Hlen' : length y = length x) by (rewrite Hlx; exact Hlen).
  assert (F1 : fits_int64 (Zsum x)).
  { unfold x. rewrite Zsum_large. unfold fits_int64. lia. }
  assert (F2 : fits_int64 (Zsum (map (fun v => v ^ 2)%Z x))).
  { unfold x. rewrite Zsum_squares_large. unfold fits_int64. lia. }
  assert (F3 : Delta_of x <> 0%Z).
  { unfold x. rewrite Delta_of_large. lia. }
  destruct (analytical_fit_eval chi2_sf x y sigmay Hlen' F1 F2 F3 Hs) as
    (f & Hf & H0 & H1 & _).
  - cbv zeta in H0, H1. fold xs in H0, H1.
    replace (Delta_of x) with (-6245910741384551616)%Z in H0, H1
      by (symmetry; exact Delta_of_large).
    assert (HD : -6245910741384551616 <> 0) by lra.
    destruct (scaled_normal_equations (INR (length x)) (np_sum xs)
                (np_sum (vpow xs 2)) (np_sum y) (np_sum (vmul xs y))
                (-6245910741384551616) HD) as [N1 N2].
    cbv zeta in N1, N2. rewrite <- H0, <- H1 in N1, N2.
    assert (Hk : (np_sum (vpow xs 2) * INR (length x) - np_sum xs ^ 2)
                 / -6245910741384551616 = kappa).
    { rewrite Hn, Hsx, Hsxx. unfold kappa. f_equal. lra. }
    rewrite Hk in N1, N2.
    exists f. split; [exact Hf|]. split; [exact N1|]. split; [exact N2|].
    split.
    + intros Hy Heq. rewrite N1 in Heq. unfold kappa in Heq. lra.
    + intros alpha0 alpha1 Hline.
      assert (Hy1 : np_sum y = INR (length x) * alpha0 + alpha1 * np_sum xs).
      { rewrite Hline, generate_y_reals, np_sum_line_plus
          by now rewrite !length_map.
        rewrite np_sum_zero_noise, length_map. fold xs. ring. }
      assert (Hy2 : np_sum (vmul xs y)
                    = alpha0 * np_sum xs + alpha1 * np_sum (vpow xs 2)).
      { rewrite Hline, generate_y_reals. fold xs.
        rewrite np_sum_x_line_plus by (unfold xs; now rewrite !length_map).
        rewrite np_sum_vmul_zero_noise. ring. }
      rewrite H0, H1, Hy1, Hy2, Hn, Hsx, Hsxx. unfold kappa.
      split; field; lra.
Qed.

End LinearFitProps.

Lemma analytical_fit_wraps_around_witness :
  exists f,
    LinearFit.analytical_fit (fun c _ => exp (- c / 2))
      (LinearFit.generate_x LinearFit.Npoints_large)
      (LinearFit.generate_y 3.6 0.3
         (LinearFit.generate_x LinearFit.Npoints_large)
         (map (fun _ => 0) (LinearFit.generate_x LinearFit.Npoints_large)))
      1 = Some f /\
    LinearFit.alpha0_calc f
    = 12200833332325000000 / -6245910741384551616 * 3.6 /\
    LinearFit.alpha0_calc f < 0.
Proof.
  destruct (LinearFitProps.analytical_fit_wraps_around
              (fun c _ => exp (- c / 2))
              (LinearFit.generate_y 3.6 0.3
                 (LinearFit.generate_x LinearFit.Npoints_large)
                 (map (fun _ => 0)
                    (LinearFit.generate_x LinearFit.Npoints_large)))
              1) as (_ & _ & f & Hf & _ & _ & _ & Hline).
  - rewrite length_generate_y by now rewrite length_map.
    apply length_generate_x.
  - lra.
  - destruct (Hline 3.6 0.3 eq_refl) as [H0 _].
    exists f. split; [exact Hf|]. split; [exact H0|]. rewrite H0. lra.
Defined.

Section MatrixBuildLemmas.
Import Ehrenfest.

Lemma lookup_tabulate {A} (f : nat -> A) (n i : nat) :
  map f (seq 0 n) !! i = if decide (i < n)%nat then Some (f i) else None.
Proof.
  rewrite lookup_map. case_decide as Hi.
  - now rewrite lookup_seq_lt.
  - now rewrite lookup_seq_ge by lia.
Qed.

Lemma lookup_zero_row (n j : nat) :
  replicate n 0 !! j = if decide (j < n)%nat then Some 0 else None.
Proof.
  case_decide as Hj.
  - now apply lookup_replicate_2.
  - apply lookup_ge_None. rewrite length_replicate. lia.
Qed.

Ltac row_cases :=
  intros j; rewrite ?list_lookup_insert, ?length_insert, ?length_replicate,
    lookup_tabulate, ?lookup_zero_row;
  unfold jump;
  repeat case_decide;
  repeat match goal with
         | |- context [Nat.eqb ?a ?b] => destruct (Nat.eqb_spec a b)
         end;
  try lia; try reflexivity.

Lemma first_row NB :
  (1 <= NB)%nat ->
  <[(0 + 1)%nat := INR (NB - 0) / INR NB]> (replicate (NB + 1) 0)
  = map (jump NB 0) (seq 0 (NB + 1)).
Proof. intros HNB. apply list_eq. row_cases. Qed.

Lemma last_row NB :
  (1 <= NB)%nat ->
  <[(NB - 1)%nat := INR NB / INR NB]> (replicate (NB + 1) 0)
  = map (jump NB NB) (seq 0 (NB + 1)).
Proof. intros HNB. apply list_eq. row_cases. Qed.

Lemma middle_row NB i :
  (0 < i < NB)%nat ->
  <[(i + 1)%nat := INR (NB - i) / INR NB]>
    (<[(i - 1)%nat := INR i / INR NB]> (replicate (NB + 1) 0))
  = map (jump NB i) (seq 0 (NB + 1)).
Proof. intros Hi. apply list_eq. row_cases. Qed.

Lemma set_item2_row (A : matrix) i j v row :
  A !! i = Some row -> (j < length row)%nat ->
  set_item2 A i j v = Some (<[i := <[j := v]> row]> A).
Proof.
  intros HA Hj. unfold set_item2, set_item. rewrite HA. cbn [mbind option_bind].
  now rewrite bool_decide_eq_true_2.
Qed.

Lemma partial_M_row NB k :
  (k <= NB)%nat -> partial_M NB k !! k = Some (replicate (NB + 1) 0).
Proof.
  intros Hk. unfold partial_M. rewrite lookup_tabulate.
  rewrite decide_True by lia. now rewrite Nat.ltb_irrefl.
Qed.

Lemma partial_M_insert NB k :
  (k <= NB)%nat ->
  <[k := map (jump NB k) (seq 0 (NB + 1))]> (partial_M NB k)
  = partial_M NB (S k).
Proof.
  intros Hk. apply list_eq. intros i.
  rewrite list_lookup_insert. unfold partial_M.
  rewrite length_map, length_seq, !lookup_tabulate.
  repeat case_decide; try lia; try reflexivity.
  - destruct H as [-> _]. destruct (Nat.ltb_spec i (S i)); [reflexivity|lia].
  - destruct (Nat.ltb_spec i k), (Nat.ltb_spec i (S k)); try lia; reflexivity.
Qed.

Lemma partial_M_zero NB : partial_M NB 0 = zeros (NB + 1) (NB + 1).
Proof.
  apply list_eq. intros i. unfold partial_M, zeros.
  rewrite lookup_tabulate. case_decide as Hi.
  - now rewrite lookup_replicate_2.
  - symmetry. apply lookup_ge_None. rewrite length_replicate. lia.
Qed.

Lemma M_step_partial NB k :
  (1 <= NB)%nat -> (k <= NB)%nat ->
  M_step NB (Some (partial_M NB k)) k = Some (partial_M NB (S k)).
Proof.
  intros HNB Hk. unfold M_step. cbn [mbind option_bind].
  assert (Hrow := partial_M_row NB k Hk).
  assert (Hdiv : forall a, true_div a NB = Some (INR a / INR NB)).
  { intros a. destruct NB; [lia|reflexivity]. }
  rewrite !Hdiv. cbn [mbind option_bind].
  case_bool_decide as H0; [|case_bool_decide as H1].
  - subst k. rewrite (set_item2_row _ _ _ _ _ Hrow)
      by (rewrite length_replicate; lia).
    rewrite first_row by lia. now rewrite partial_M_insert.
  - subst k. rewrite (set_item2_row _ _ _ _ _ Hrow)
      by (rewrite length_replicate; lia).
    rewrite last_row by lia. now rewrite partial_M_insert.
  - rewrite (set_item2_row _ _ _ _ _ Hrow)
      by (rewrite length_replicate; lia).
    cbn [mbind option_bind].
    erewrite set_item2_row.
    2:{ apply list_lookup_insert_eq. unfold partial_M.
        rewrite length_map, length_seq. lia. }
    2:{ rewrite length_insert, length_replicate. lia. }
    rewrite list_insert_insert_eq, middle_row by lia.
    now rewrite partial_M_insert.
Qed.

Lemma build_M_prefix NB k :
  (1 <= NB)%nat -> (k <= NB + 1)%nat ->
  foldl (M_step NB) (Some (zeros (NB + 1) (NB + 1))) (seq 0 k)
  = Some (partial_M NB k).
Proof.
  intros HNB. induction k as [|k IH]; intros Hk.
  - cbn. now rewrite partial_M_zero.
  - rewrite seq_S, foldl_app, IH by lia. cbn [foldl Nat.add].
    apply M_step_partial; lia.
Qed.

(** The loop succeeds and builds the matrix of entries [jump NB i j]. *)
Lemma build_M_closed_form NB :
  (1 <= NB)%nat ->
  build_M NB
  = Some (map (fun i => map (jump NB i) (seq 0 (NB + 1))) (seq 0 (NB + 1))).
Proof.
  intros HNB. unfold build_M. rewrite build_M_prefix by lia.
  f_equal. unfold partial_M. apply map_ext_in. intros i Hi.
  apply in_seq in Hi. destruct (Nat.ltb_spec i (NB + 1)); [reflexivity|lia].
Qed.

End MatrixBuildLemmas.

Section StochasticLemmas.
Import Ehrenfest.

Lemma np_sum_map_plus {A} (f g : A -> R) (l : list A) :
  np_sum (map (fun a => f a + g a) l) = np_sum (map f l) + np_sum (map g l).
Proof.
  unfold np_sum. induction l as [|a l IH]; cbn [map foldr]; [lra|].
  rewrite IH. lra.
Qed.

Lemma np_sum_map_scale {A} (c : R) (f : A -> R) (l : list A) :
  np_sum (map (fun a => c * f a) l) = c * np_sum (map f l).
Proof.
  unfold np_sum. induction l as [|a l IH]; cbn [map foldr]; [lra|].
  rewrite IH. lra.
Qed.

Lemma np_sum_zero {A} (f : A -> R) (l : list A) :
  (forall a, a ∈ l -> f a = 0) -> np_sum (map f l) = 0.
Proof.
  unfold np_sum. induction l as [|a l IH]; intros Hf; cbn [map foldr]; [lra|].
  rewrite IH, Hf; [lra|left|]. intros b Hb. apply Hf. now right.
Qed.

Lemma np_sum_nonneg (l : list R) :
  Forall (fun p => 0 <= p) l -> 0 <= np_sum l.
Proof.
  unfold np_sum. induction 1 as [|p l Hp _ IH]; cbn [foldr]; lra.
Qed.

(** A sum over [0 .. n-1] of a function that vanishes away from [k]. *)
Lemma np_sum_single (f : nat -> R) (n k : nat) :
  (forall j, j <> k -> f j = 0) ->
  np_sum (map f (seq 0 n)) = if Nat.ltb k n then f k else 0.
Proof.
  intros Hf. induction n as [|n IH]; [reflexivity|].
  rewrite seq_S, map_app, np_sum_app, IH. cbn [map Nat.add].
  unfold np_sum at 1. cbn [foldr].
  destruct (Nat.ltb_spec k n), (Nat.ltb_spec k (S n)); try lia.
  - rewrite (Hf n) by lia. lra.
  - replace n with k by lia. lra.
  - rewrite (Hf n) by lia. lra.
Qed.

Lemma jump_nonneg NB i j : (1 <= NB)%nat -> 0 <= jump NB i j.
Proof.
  intros HNB. unfold jump.
  assert (0 < INR NB) by (apply lt_0_INR; lia).
  assert (forall a, 0 <= INR a / INR NB).
  { intros a. apply Rmult_le_pos; [apply pos_INR|].
    left. now apply Rinv_0_lt_compat. }
  destruct (Nat.eqb _ _); [auto|]. destruct (Nat.eqb _ _); [auto|lra].
Qed.

Lemma jump_row_sum NB i :
  (1 <= NB)%nat -> (i <= NB)%nat ->
  np_sum (map (jump NB i) (seq 0 (NB + 1))) = 1.
Proof.
  intros HNB Hi.
  assert (HNB0 : INR NB <> 0) by (apply not_0_INR; lia).
  rewrite (map_ext (jump NB i)
    (fun j => (if Nat.eqb (j + 1) i then INR i / INR NB else 0)
              + (if Nat.eqb j (i + 1) then INR (NB - i) / INR NB else 0))).
  2:{ intros j. unfold jump.
      destruct (Nat.eqb_spec (j + 1) i), (Nat.eqb_spec j (i + 1));
        try lia; lra. }
  rewrite np_sum_map_plus.
  rewrite (np_sum_single _ _ (i - 1)).
  2:{ intros j Hj. destruct (Nat.eqb_spec (j + 1) i); [lia|reflexivity]. }
  rewrite (np_sum_single _ _ (i + 1)).
  2:{ intros j Hj. destruct (Nat.eqb_spec j (i + 1)); [lia|reflexivity]. }
  rewrite Nat.eqb_refl.
  assert (Hsplit : INR i + INR (NB - i) = INR NB).
  { rewrite <- plus_INR. f_equal. lia. }
  destruct (Nat.ltb_spec (i - 1) (NB + 1)); [|lia].
  destruct (Nat.eqb_spec (i - 1 + 1) i) as [_|Hne].
  - destruct (Nat.ltb_spec (i + 1) (NB + 1)).
    + rewrite <- Hsplit. field. now rewrite Hsplit.
    + replace (NB - i)%nat with 0%nat in Hsplit by lia. cbn in Hsplit.
      rewrite Rplus_0_r in Hsplit. rewrite Hsplit. now field.
  - assert (i = 0)%nat as -> by lia.
    destruct (Nat.ltb_spec (0 + 1) (NB + 1)); [|lia].
    rewrite Nat.sub_0_r. now field.
Qed.

End StochasticLemmas.

Section MatmulLemmas.
Import Ehrenfest.

Lemma tabulate_nth (row : list R) :
  map (fun j => nth j row 0) (seq 0 (length row)) = row.
Proof.
  apply list_eq. intros i. rewrite lookup_tabulate. case_decide as Hi.
  - rewrite nth_lookup. destruct (lookup_lt_is_Some_2 row i Hi) as [v ->].
    reflexivity.
  - symmetry. apply lookup_ge_None. lia.
Qed.

(** Summing the entries of a row-times-matrix product over the columns
    [js] column by column or row by row gives the same. *)
Lemma vecmat_sum_swap (v : list R) (B : matrix) (js : list nat) :
  np_sum (map (fun j => np_sum (vmul v (column j B))) js)
  = np_sum (zip_with (fun a row => a * np_sum (map (fun j => nth j row 0) js))
              v B).
Proof.
  revert B. induction v as [|a v IH]; intros [|row B].
  - cbn. apply np_sum_zero. reflexivity.
  - cbn. apply np_sum_zero. reflexivity.
  - cbn. apply np_sum_zero. reflexivity.
  - unfold vmul, column in *. cbn [map zip_with].
    unfold np_sum at 2 3. cbn [foldr].
    fold (np_sum (zip_with (fun a0 row0 =>
            a0 * np_sum (map (fun j => nth j row0 0) js)) v B)).
    rewrite <- IH.
    rewrite (np_sum_map_plus (fun j => a * nth j row 0)
               (fun j => np_sum (zip_with Rmult v
                                   (map (fun row0 => nth j row0 0) B)))).
    now rewrite np_sum_map_scale.
Qed.

Lemma np_sum_weights_one (v : list R) (B : matrix) (g : list R -> R) :
  length v = length B -> Forall (fun row => g row = 1) B ->
  np_sum (zip_with (fun a row => a * g row) v B) = np_sum v.
Proof.
  intros Hlen HB. revert v Hlen.
  induction HB as [|row B Hrow _ IH]; intros [|a v] Hlen; try discriminate;
    [reflexivity|].
  injection Hlen as Hlen. unfold np_sum in *. cbn [zip_with foldr].
  rewrite IH, Hrow by assumption. lra.
Qed.

Lemma np_sum_vmul_nonneg (a b : list R) :
  Forall (fun p => 0 <= p) a -> Forall (fun p => 0 <= p) b ->
  0 <= np_sum (vmul a b).
Proof.
  intros Ha. revert b. unfold np_sum, vmul.
  induction Ha as [|p a Hp _ IH]; intros b Hb; [cbn; lra|].
  destruct Hb as [|q b Hq Hb]; [cbn; lra|].
  cbn [zip_with foldr]. specialize (IH b Hb). nra.
Qed.

Lemma nth_nonneg (row : list R) j :
  Forall (fun p => 0 <= p) row -> 0 <= nth j row 0.
Proof.
  intros Hrow. rewrite nth_lookup. destruct (row !! j) as [p|] eqn:Hp.
  - cbn. rewrite Forall_forall in Hrow. apply Hrow.
    now apply list_elem_of_lookup_2 in Hp.
  - cbn. lra.
Qed.

Lemma ncols_stochastic n B :
  (1 <= n)%nat -> row_stochastic n B -> ncols B = n.
Proof.
  intros Hn [Hlen Hrows]. destruct B as [|row B]; [cbn in Hlen; lia|].
  cbn. now apply Forall_inv in Hrows as [Hrow _].
Qed.

(** A probability row vector times a row-stochastic matrix is a
    probability vector of the same length. *)
Lemma vecmat_prob_vector n (v : list R) (B : matrix) :
  (1 <= n)%nat -> row_stochastic n B -> length v = n -> prob_vector v ->
  length (vecmat v B) = n /\ prob_vector (vecmat v B).
Proof.
  intros Hn HB Hv [Hv0 Hv1]. unfold vecmat.
  rewrite (ncols_stochastic n B Hn HB). destruct HB as [HlenB Hrows].
  split; [now rewrite length_map, length_seq|]. split.
  - apply Forall_map, Forall_forall. intros j _. cbn.
    apply np_sum_vmul_nonneg; [exact Hv0|].
    apply Forall_map. eapply Forall_impl; [exact Hrows|]. cbn.
    intros row [_ [Hrow _]]. now apply nth_nonneg.
  - rewrite vecmat_sum_swap, np_sum_weights_one; [exact Hv1|lia|].
    eapply Forall_impl; [exact Hrows|]. cbn.
    intros row [Hlen [_ Hsum]]. now rewrite <- Hlen, tabulate_nth.
Qed.

Lemma matmul_stochastic n (A B : matrix) :
  (1 <= n)%nat -> row_stochastic n A -> row_stochastic n B ->
  row_stochastic n (matmul A B).
Proof.
  intros Hn [HlenA HA] HB. unfold matmul. split; [now rewrite length_map|].
  apply Forall_map. eapply Forall_impl; [exact HA|]. cbn.
  intros row [Hlen Hrow]. now apply vecmat_prob_vector.
Qed.

Lemma matrix_power_stochastic n (A : matrix) k :
  (1 <= n)%nat -> row_stochastic n A ->
  row_stochastic n (matrix_power A (S k)).
Proof.
  intros Hn HA. induction k as [|k IH]; [exact HA|].
  change (matrix_power A (S (S k))) with (matmul (matrix_power A (S k)) A).
  now apply matmul_stochastic.
Qed.

Lemma jump_matrix_stochastic NB :
  (1 <= NB)%nat ->
  row_stochastic (NB + 1)
    (map (fun i => map (jump NB i) (seq 0 (NB + 1))) (seq 0 (NB + 1))).
Proof.
  intros HNB. split; [now rewrite length_map, length_seq|].
  apply Forall_map, Forall_forall. intros i Hi. cbn.
  apply list_elem_of_In, in_seq in Hi.
  split; [now rewrite length_map, length_seq|]. split.
  - apply Forall_map, Forall_forall. intros j _. now apply jump_nonneg.
  - apply jump_row_sum; lia.
Qed.

End MatmulLemmas.

Section DerivationLemmas.
Import Ehrenfest.

Lemma unit_vector_tabulate n k :
  <[k := 1]> (replicate n 0)
  = map (fun j => if Nat.eqb j k then 1 else 0) (seq 0 n).
Proof.
  apply list_eq. intros j.
  rewrite list_lookup_insert, length_replicate, lookup_tabulate,
    lookup_zero_row.
  repeat case_decide; destruct (Nat.eqb_spec j k); try lia; reflexivity.
Qed.

Lemma unit_vector_prob n k :
  (k < n)%nat -> prob_vector (<[k := 1]> (replicate n 0)).
Proof.
  intros Hk. rewrite unit_vector_tabulate. split.
  - apply Forall_map, Forall_forall. intros j _. cbn.
    destruct (Nat.eqb j k); lra.
  - rewrite (np_sum_single _ _ k).
    + destruct (Nat.ltb_spec k n); [|lia]. now rewrite Nat.eqb_refl.
    + intros j Hj. destruct (Nat.eqb_spec j k); [lia|reflexivity].
Qed.

Lemma vmul_ones (a : list R) : vmul a (replicate (length a) 1) = a.
Proof.
  unfold vmul. induction a as [|v a IH]; [reflexivity|].
  cbn. rewrite IH. f_equal. lra.
Qed.

Lemma np_sum_vmul_zeros (a : list R) n : np_sum (vmul a (replicate n 0)) = 0.
Proof.
  unfold np_sum, vmul. revert n.
  induction a as [|v a IH]; intros [|n]; try reflexivity.
  cbn. rewrite IH. lra.
Qed.

Lemma column_ones n j :
  (j < n)%nat -> column j (ones n n) = replicate n 1.
Proof.
  intros Hj. unfold column, ones. apply list_eq. intros i.
  rewrite lookup_map. destruct (decide (i < n)%nat) as [Hi|Hi].
  - rewrite !lookup_replicate_2 by lia. cbn.
    now rewrite nth_lookup, lookup_replicate_2.
  - rewrite !(proj2 (lookup_ge_None _ _)); [reflexivity| |];
      rewrite length_replicate; lia.
Qed.

(** A unit row times the all-ones matrix is the all-ones row. *)
Lemma vecmat_unit_ones n k :
  (k < n)%nat ->
  vecmat (<[k := 1]> (replicate n 0)) (ones n n) = replicate n 1.
Proof.
  intros Hk. unfold vecmat.
  assert (Hcols : ncols (ones n n) = n).
  { unfold ones. destruct n; [lia|]. cbn. now rewrite length_replicate. }
  rewrite Hcols. apply list_eq. intros j. rewrite lookup_tabulate.
  case_decide as Hj.
  - rewrite lookup_replicate_2, column_ones by lia. f_equal.
    replace (replicate n 1)
      with (replicate (length (<[k := 1]> (replicate n 0))) 1)
      by (now rewrite length_insert, length_replicate).
    rewrite vmul_ones. now apply unit_vector_prob.
  - symmetry. apply lookup_ge_None. rewrite length_replicate. lia.
Qed.

Lemma singleton_row_inj (a b : list R) : [a] = [b] -> a = b.
Proof. now intros [=]. Qed.

(** What the two derivation cells compute. *)
Lemma derivation_closed_form NB nturns :
  (9 <= NB)%nat ->
  derivation NB nturns
  = Some {| M := map (fun i => map (jump NB i) (seq 0 (NB + 1)))
                     (seq 0 (NB + 1));
            V1 := [<[3%nat := 1]> (replicate (NB + 1) 0)];
            V2 := <[9%nat := 1]> (replicate (NB + 1) 0);
            PAfter := [replicate (NB + 1) 1];
            P9 := [0] |}.
Proof.
  intros HNB. unfold derivation.
  rewrite build_M_closed_form by lia. cbn [mbind option_bind].
  unfold set_item2, set_item, zeros. cbn [replicate lookup list_lookup].
  cbn [mbind option_bind]. rewrite !length_replicate.
  rewrite !bool_decide_eq_true_2 by lia. cbn [mbind option_bind insert
    list_insert].
  f_equal. f_equal.
  - unfold matmul. cbn [map matrix_power]. f_equal.
    apply vecmat_unit_ones. lia.
  - unfold matvec, matmul. cbn [map matrix_power]. f_equal.
    apply np_sum_vmul_zeros.
Qed.

End DerivationLemmas.

Module EhrenfestProps.
Import Ehrenfest.

(** C9: for [NB >= 1] the loop builds an (NB+1) x (NB+1) matrix whose
    row i holds i/NB in column i-1, (NB-i)/NB in column i+1 and zero
    elsewhere; its entries are nonnegative, each row sums to 1, and a
    probability row vector times the matrix is a probability vector. *)
Theorem jump_matrix_row_stochastic (NB : nat) :
  (1 <= NB)%nat ->
  exists M,
    build_M NB = Some M /\
    length M = (NB + 1)%nat /\
    (forall i j, (i <= NB)%nat -> (j <= NB)%nat ->
       M !! i ≫= (fun row => row !! j) = Some (jump NB i j)) /\
    Forall (fun row => length row = (NB + 1)%nat /\
                       Forall (fun p => 0 <= p) row /\ np_sum row = 1) M /\
    (forall v, length v = (NB + 1)%nat -> prob_vector v ->
       length (vecmat v M) = (NB + 1)%nat /\ prob_vector (vecmat v M)).
Proof.
  intros HNB. eexists. split; [now apply build_M_closed_form|].
  destruct (jump_matrix_stochastic NB HNB) as [Hlen Hrows].
  split; [exact Hlen|]. split; [|split].
  - intros i j Hi Hj. rewrite lookup_tabulate, decide_True by lia.
    cbn [mbind option_bind]. now rewrite lookup_tabulate, decide_True by lia.
  - exact Hrows.
  - intros v Hv Hp. apply vecmat_prob_vector; try assumption; [lia|].
    split; assumption.
Qed.

(** C3, as the specification states it, fails for the notebook's
    [NB = 10] and [nturns = 20]: [PAfter] is not the initial row times
    the 20th power of [M], and [P9] is not the component of [PAfter]
    selected by [V2]. *)
Lemma PAfter_not_transfer_power :
  exists nb,
    derivation 10 20 = Some nb /\
    PAfter nb <> matmul (V1 nb) (matrix_power (M nb) 20) /\
    P9 nb <> matvec (PAfter nb) (V2 nb).
Proof.
  eexists. split; [apply derivation_closed_form; lia|].
  cbn [M V1 V2 PAfter P9]. split.
  - intros Heq. unfold matmul in Heq. cbn [map] in Heq.
    apply singleton_row_inj in Heq.
    assert (Hst : row_stochastic (10 + 1) (matrix_power
              (map (fun i => map (jump 10 i) (seq 0 (10 + 1)))
                 (seq 0 (10 + 1))) 20)).
    { apply matrix_power_stochastic; [lia|].
      apply jump_matrix_stochastic. lia. }
    destruct (vecmat_prob_vector (10 + 1)
                (<[3%nat := 1]> (replicate (10 + 1) 0)) _
                ltac:(lia) Hst) as [_ [_ Hsum]].
    + now rewrite length_insert, length_replicate.
    + apply unit_vector_prob. lia.
    + rewrite <- Heq in Hsum. unfold np_sum in Hsum. simpl in Hsum. lra.
  - unfold matvec, vmul, np_sum. simpl. intros [=]. lra.
Qed.

(** C3, amended: in the notebook as written, for every [NB >= 9] and
    every number of turns, [PAfter] is the initial row [V1] times the
    first power of the all-ones matrix, which is the row of NB+1 ones,
    and [P9] is [PAfter] times the zero vector, which is 0; neither
    depends on [M], on [nturns] or on [V2]. *)
Theorem PAfter_placeholder (NB nturns : nat) :
  (9 <= NB)%nat ->
  exists nb,
    derivation NB nturns = Some nb /\
    build_M NB = Some (M nb) /\
    PAfter nb = matmul (V1 nb) (matrix_power (ones (NB + 1) (NB + 1)) 1) /\
    PAfter nb = [replicate (NB + 1) 1] /\
    P9 nb = matvec (PAfter nb) (replicate (NB + 1) 0) /\
    P9 nb = [0].
Proof.
  intros HNB. eexists. split; [now apply derivation_closed_form|].
  cbn [M V1 V2 PAfter P9]. split; [apply build_M_closed_form; lia|].
  split; [|split; [reflexivity|split; [|reflexivity]]].
  - unfold matmul. cbn [map matrix_power]. f_equal. symmetry.
    apply vecmat_unit_ones. lia.
  - unfold matvec. cbn [map]. f_equal. symmetry. apply np_sum_vmul_zeros.
Qed.

End EhrenfestProps.

Lemma jump_matrix_row_stochastic_witness :
  exists M, Ehrenfest.build_M 10 = Some M /\ length M = 11%nat.
Proof.
  destruct (EhrenfestProps.jump_matrix_row_stochastic 10) as (M & HM & Hlen & _).
  - lia.
  - exists M. split; [exact HM|exact Hlen].
Defined.

Lemma PAfter_placeholder_witness :
  exists nb, Ehrenfest.derivation 10 20 = Some nb /\ Ehrenfest.P9 nb = [0].
Proof.
  destruct (EhrenfestProps.PAfter_placeholder 10 20) as (nb & Hnb & _ & _ & _ & _ & HP).
  - lia.
  - exists nb. split; [exact Hnb|exact HP].
Defined.

Section InverseExample.

Lemma placeholder_comb :
  madd (ones 4 4) (eye 4)
  = [[2; 1; 1; 1]; [1; 2; 1; 1]; [1; 1; 2; 1]; [1; 1; 1; 2]].
Proof. unfold madd, vadd, ones, eye. simpl. Rlist. Qed.

Lemma placeholder_det :
  det [[2; 1; 1; 1]; [1; 2; 1; 1]; [1; 1; 2; 1]; [1; 1; 1; 2]] = 5.
Proof. unfold det, np_sum. simpl. lra. Qed.

Lemma placeholder_inv :
  inv [[2; 1; 1; 1]; [1; 2; 1; 1]; [1; 1; 2; 1]; [1; 1; 1; 2]]
  = Some [[4 / 5; -1 / 5; -1 / 5; -1 / 5];
          [-1 / 5; 4 / 5; -1 / 5; -1 / 5];
          [-1 / 5; -1 / 5; 4 / 5; -1 / 5];
          [-1 / 5; -1 / 5; -1 / 5; 4 / 5]].
Proof.
  unfold inv. rewrite placeholder_det. Rdec.
  unfold cofactor, det, np_sum. simpl. Rlist.
Qed.

Lemma placeholder_inv_is_inverse :
  matmul [[2; 1; 1; 1]; [1; 2; 1; 1]; [1; 1; 2; 1]; [1; 1; 1; 2]]
         [[4 / 5; -1 / 5; -1 / 5; -1 / 5];
          [-1 / 5; 4 / 5; -1 / 5; -1 / 5];
          [-1 / 5; -1 / 5; 4 / 5; -1 / 5];
          [-1 / 5; -1 / 5; -1 / 5; 4 / 5]]
  = eye 4.
Proof. unfold matmul, vecmat, column, vmul, np_sum, eye. simpl. Rlist. Qed.

Lemma discriminant_closed_form (data : Fisher.dataset) :
  Fisher.discriminant data
  = Some {| Fisher.mu := Fisher.mu_of data;
            Fisher.covmat_Vers := ones 4 4;
            Fisher.covmat_Virg := eye 4;
            Fisher.covmat_comb := madd (ones 4 4) (eye 4);
            Fisher.covmat_comb_inv :=
              [[4 / 5; -1 / 5; -1 / 5; -1 / 5];
               [-1 / 5; 4 / 5; -1 / 5; -1 / 5];
               [-1 / 5; -1 / 5; 4 / 5; -1 / 5];
               [-1 / 5; -1 / 5; -1 / 5; 4 / 5]];
            Fisher.wf := [0; 1; 2; 3] |}.
Proof.
  unfold Fisher.discriminant. cbv zeta.
  rewrite placeholder_comb at 1. rewrite placeholder_inv. reflexivity.
Qed.

Lemma mu_three_flowers :
  Fisher.mu_of Fisher.three_flowers
  = [[5; 3; 1; 0]; [1; 0; 0; 0]; [0; 0; 0; 0]].
Proof.
  unfold Fisher.mu_of, Fisher.data_spec_var, Fisher.three_flowers, Fisher.y,
    Fisher.X, column, np_mean, np_sum.
  vm_compute bool_decide. simpl. Rlist.
Qed.

End InverseExample.

Module DiscriminantProps.
Import Fisher.

(** C2, as the specification states it, fails: on a data set with one
    flower per species the coefficients [wf] are not the inverse of the
    combined covariance matrix applied to the difference of the class
    means, in either order of the difference. *)
Lemma wf_not_inverse_times_mean_difference :
  exists f,
    discriminant three_flowers = Some f /\
    wf f <> wf_spec f (mean_Vers f) (mean_Virg f) /\
    wf f <> wf_spec f (mean_Virg f) (mean_Vers f).
Proof.
  eexists. split; [apply discriminant_closed_form|].
  unfold wf_spec, mean_Vers, mean_Virg. cbn [mu wf covmat_comb_inv].
  rewrite mu_three_flowers. cbn [nth].
  unfold matvec, vsub, vmul, np_sum. simpl.
  split; intros [=]; lra.
Qed.

(** C2, amended: for every data set the cells succeed; the combined
    matrix is the sum of the all-ones and the identity 4 x 4
    placeholders, not of per-class covariance matrices;
    [covmat_comb_inv] is its inverse; and [wf] is the fixed placeholder
    (0, 1, 2, 3), whatever the class means and the inverse are. *)
Theorem wf_placeholder (data : dataset) :
  exists f,
    discriminant data = Some f /\
    mu f = mu_of data /\
    covmat_comb f = madd (ones 4 4) (eye 4) /\
    inv (covmat_comb f) = Some (covmat_comb_inv f) /\
    matmul (covmat_comb f) (covmat_comb_inv f) = eye 4 /\
    wf f = [0; 1; 2; 3].
Proof.
  eexists. split; [apply discriminant_closed_form|].
  cbn [mu wf covmat_comb covmat_comb_inv].
  rewrite placeholder_comb, placeholder_inv, placeholder_inv_is_inverse.
  repeat split; reflexivity.
Qed.

End DiscriminantProps.

Section SamplerLemmas.
Import AcceptReject.

Variable u : nat -> R.
Variables xmin xmax : R.
Variable pos0 : nat.

Lemma try_until_accept_spec fuel n x pos n' :
  try_until_accept u xmin xmax fuel (pos0 + 2 * n) n = Some (x, pos, n') ->
  (n < n')%nat /\ pos = (pos0 + 2 * n')%nat /\
  x = x_of_try u xmin xmax pos0 (n' - 1) /\
  accepted u xmin xmax pos0 (n' - 1) /\
  (forall t, (n <= t < n' - 1)%nat -> ~ accepted u xmin xmax pos0 t).
Proof.
  revert n. induction fuel as [|fuel IH]; intros n; [discriminate|].
  cbn [try_until_accept uniform].
  replace (S (pos0 + 2 * n)) with (pos0 + 2 * n + 1)%nat by lia.
  fold (x_of_try u xmin xmax pos0 n) (y_of_try u pos0 n).
  case_bool_decide as Hacc.
  - intros [= <- <- <-].
    replace (n + 1 - 1)%nat with n by lia.
    repeat split; try lia; try assumption.
  - replace (S (pos0 + 2 * n + 1)) with (pos0 + 2 * (n + 1))%nat by lia.
    intros Hrec. apply IH in Hrec as (Hlt & Hpos & Hx & Ha & Hrej).
    repeat split; try lia; try assumption.
    intros t Ht. destruct (decide (t = n)) as [->|Hne]; [exact Hacc|].
    apply Hrej. lia.
Qed.

Lemma try_until_accept_mono fuel fuel' pos n r :
  try_until_accept u xmin xmax fuel pos n = Some r -> (fuel <= fuel')%nat ->
  try_until_accept u xmin xmax fuel' pos n = Some r.
Proof.
  revert fuel' pos n. induction fuel as [|fuel IH]; intros fuel' pos n;
    [discriminate|].
  intros Hrun Hle. destruct fuel' as [|fuel']; [lia|].
  cbn [try_until_accept uniform] in *.
  case_bool_decide; [exact Hrun|]. apply IH; [exact Hrun|lia].
Qed.

Lemma try_until_accept_terminates d n :
  accepted u xmin xmax pos0 (n + d) ->
  exists r, try_until_accept u xmin xmax (S d) (pos0 + 2 * n) n = Some r.
Proof.
  revert n. induction d as [|d IH]; intros n Hacc.
  - cbn [try_until_accept uniform].
    replace (S (pos0 + 2 * n)) with (pos0 + 2 * n + 1)%nat by lia.
    fold (x_of_try u xmin xmax pos0 n) (y_of_try u pos0 n).
    rewrite Nat.add_0_r in Hacc. unfold accepted in Hacc.
    rewrite bool_decide_eq_true_2 by exact Hacc. eauto.
  - cbn [try_until_accept uniform].
    case_bool_decide; [eauto|].
    replace (S (S (pos0 + 2 * n))) with (pos0 + 2 * (n + 1))%nat by lia.
    apply IH. now replace (n + 1 + d)%nat with (n + S d)%nat by lia.
Qed.

Lemma filter_rejected n m :
  (forall t, (n <= t < n + m)%nat -> ~ accepted u xmin xmax pos0 t) ->
  filter (accepted u xmin xmax pos0) (seq n m) = [].
Proof.
  revert n. induction m as [|m IH]; intros n Hrej; [reflexivity|].
  cbn [seq]. rewrite filter_cons, decide_False by (apply Hrej; lia).
  apply IH. intros t Ht. apply Hrej. lia.
Qed.

Lemma filter_accepted_extend n n' :
  (n < n')%nat -> accepted u xmin xmax pos0 (n' - 1) ->
  (forall t, (n <= t < n' - 1)%nat -> ~ accepted u xmin xmax pos0 t) ->
  filter (accepted u xmin xmax pos0) (seq 0 n')
  = filter (accepted u xmin xmax pos0) (seq 0 n) ++ [(n' - 1)%nat].
Proof.
  intros Hlt Hacc Hrej.
  replace n' with (n + ((n' - 1 - n) + 1))%nat at 1 by lia.
  rewrite seq_app, filter_app, seq_app, filter_app, !Nat.add_0_l.
  rewrite (filter_rejected n) by (intros t Ht; apply Hrej; lia).
  replace (n + (n' - 1 - n))%nat with (n' - 1)%nat by lia.
  cbn [seq app]. rewrite filter_cons, decide_True by exact Hacc.
  reflexivity.
Qed.

End SamplerLemmas.

Section SamplerLoop.
Import AcceptReject.

Variable u : nat -> R.
Variables xmin xmax : R.
Variable N_points : nat.
Variable s0 : state.

Let init := {| rng := rng s0; x_transformation := x_transformation s0;
               N_try := 0; x_accepted := replicate N_points 0 |}.

Let loop_invariant := AcceptReject.loop_invariant u xmin xmax N_points s0.

Lemma sample_step_invariant fuel k s s' :
  (k < N_points)%nat -> loop_invariant k s ->
  sample_step u xmin xmax fuel (Some s) k = Some s' ->
  loop_invariant (S k) s'.
Proof.
  intros Hk Hinv. unfold loop_invariant, AcceptReject.loop_invariant in Hinv.
  destruct Hinv as (Hrng & Hframe & Hlen & Hacc & Hlast).
  unfold sample_step. cbn [mbind option_bind]. rewrite Hrng.
  destruct (try_until_accept u xmin xmax fuel (rng s0 + 2 * N_try s)
              (N_try s)) as [[[x pos] n']|] eqn:Htry; [|discriminate].
  apply try_until_accept_spec in Htry as (Hlt & Hpos & Hx & Ha & Hrej).
  cbn [mbind option_bind]. unfold set_item. case_bool_decide; [|discriminate].
  cbn [mbind option_bind]. intros [= <-].
  unfold loop_invariant, AcceptReject.loop_invariant.
  cbn [rng x_transformation N_try x_accepted]. cbv zeta.
  rewrite (filter_accepted_extend u xmin xmax (rng s0) (N_try s) n' Hlt Ha Hrej).
  rewrite length_app, Hlen, map_app. cbn [length map].
  repeat split; try assumption; try lia.
  - rewrite Hacc, insert_app_r_alt by (rewrite length_map; lia).
    rewrite length_map, Hlen, Nat.sub_diag.
    replace (N_points - k)%nat with (S (N_points - S k)) by lia.
    cbn [replicate insert list_insert]. rewrite <- app_assoc, Hx.
    reflexivity.
  - intros _. exact Ha.
Qed.

Lemma sample_loop_invariant fuel k s :
  (k <= N_points)%nat ->
  foldl (sample_step u xmin xmax fuel) (Some init) (seq 0 k) = Some s ->
  loop_invariant k s.
Proof.
  revert s. induction k as [|k IH]; intros s Hk.
  - cbn [seq foldl]. intros [= <-].
    unfold loop_invariant, AcceptReject.loop_invariant, init. cbv zeta.
    cbn [rng x_transformation N_try x_accepted seq filter list_filter map
         length app].
    rewrite Nat.sub_0_r. repeat split; lia.
  - rewrite seq_S, foldl_app. cbn [foldl Nat.add].
    destruct (foldl (sample_step u xmin xmax fuel) (Some init) (seq 0 k))
      as [s1|]; [|discriminate].
    apply sample_step_invariant; [lia|]. apply IH; [lia|reflexivity].
Qed.

Lemma loop_invariant_length k s :
  (k <= N_points)%nat -> loop_invariant k s ->
  length (x_accepted s) = N_points.
Proof.
  intros Hk Hinv. unfold loop_invariant, AcceptReject.loop_invariant in Hinv.
  destruct Hinv as (_ & _ & Hlen & Hacc & _).
  rewrite Hacc, length_app, length_map, Hlen, length_replicate. lia.
Qed.

(** When accepted tries never run out, some fuel lets the first [k]
    turns finish, and more fuel gives the same state. *)
Lemma sample_loop_terminates k :
  (forall n, exists t, (n <= t)%nat /\ accepted u xmin xmax (rng s0) t) ->
  (k <= N_points)%nat ->
  exists fuel s, forall fuel', (fuel <= fuel')%nat ->
    foldl (sample_step u xmin xmax fuel') (Some init) (seq 0 k) = Some s.
Proof.
  intros Hinf. induction k as [|k IH]; intros Hk.
  - exists 0%nat, init. reflexivity.
  - destruct IH as (fuel & s & Hrun); [lia|].
    assert (Hinv : loop_invariant k s).
    { apply (sample_loop_invariant fuel); [lia|]. apply Hrun. lia. }
    destruct (Hinf (N_try s)) as (t & Ht & Hacc).
    destruct (try_until_accept_terminates u xmin xmax (rng s0)
                (t - N_try s) (N_try s)) as [[[x pos] n'] Htry].
    { now replace (N_try s + (t - N_try s))%nat with t by lia. }
    assert (Hlen := loop_invariant_length k s ltac:(lia) Hinv).
    unfold loop_invariant, AcceptReject.loop_invariant in Hinv.
    destruct Hinv as (Hrng & _).
    eexists (Nat.max fuel (S (t - N_try s))), _. intros fuel' Hfuel.
    rewrite seq_S, foldl_app, Hrun by lia. cbn [foldl Nat.add].
    unfold sample_step. cbn [mbind option_bind]. rewrite Hrng.
    rewrite (try_until_accept_mono _ _ _ _ _ _ _ _ Htry) by lia.
    cbn [mbind option_bind]. unfold set_item.
    rewrite bool_decide_eq_true_2 by lia. reflexivity.
Qed.

End SamplerLoop.

Module AcceptRejectProps.
Import AcceptReject.

(** C6: when the draws lie in [0, 1), [xmin <= xmax] and accepted
    tries never run out, the sampling cell finishes, and in every
    finished run [x_accepted] holds, in order, exactly the candidates
    [x_test] of the accepted tries among the [N_try] tries made: each
    entry lies in [xmin, xmax] and its envelope draw [y_test] from
    [0, 2] satisfied [y_test < 2 * x_test]; rejected candidates are
    retried and leave no entry; the last try was accepted.  Besides
    [x_accepted] and [N_try] only the generator has advanced, by two
    draws per try. *)
Theorem sampler_accepts_under_envelope (u : nat -> R) (xmin xmax : R)
    (N_points : nat) (s0 : state) :
  (forall k, 0 <= u k < 1) ->
  xmin <= xmax ->
  (forall n, exists t, (n <= t)%nat /\ accepted u xmin xmax (rng s0) t) ->
  (exists fuel s, sampler u xmin xmax fuel N_points s0 = Some s) /\
  (forall fuel s,
     sampler u xmin xmax fuel N_points s0 = Some s ->
     length (x_accepted s) = N_points /\
     x_accepted s
       = map (x_of_try u xmin xmax (rng s0))
           (filter (accepted u xmin xmax (rng s0)) (seq 0 (N_try s))) /\
     Forall (fun x => exists t,
               (t < N_try s)%nat /\
               x = x_of_try u xmin xmax (rng s0) t /\
               y_of_try u (rng s0) t < 2 * x /\
               0 <= y_of_try u (rng s0) t <= 2 /\
               xmin <= x <= xmax) (x_accepted s) /\
     (0 < N_points -> accepted u xmin xmax (rng s0) (N_try s - 1))%nat /\
     rng s = (rng s0 + 2 * N_try s)%nat /\
     x_transformation s = x_transformation s0).
Proof.
  intros Hu Hx Hinf. split.
  - destruct (sample_loop_terminates u xmin xmax N_points s0 N_points Hinf)
      as (fuel & s & Hrun); [lia|].
    exists fuel, s. apply Hrun. lia.
  - intros fuel s Hrun.
    apply sample_loop_invariant in Hrun as Hinv; [|lia].
    assert (Hlen := loop_invariant_length u xmin xmax N_points s0
                      N_points s ltac:(lia) Hinv).
    unfold loop_invariant in Hinv.
    destruct Hinv as (Hrng & Hframe & _ & Hacc & Hlast).
    rewrite Nat.sub_diag in Hacc. cbn [replicate] in Hacc.
    rewrite app_nil_r in Hacc.
    repeat split; try assumption.
    rewrite Hacc. apply Forall_map, Forall_forall. intros t Ht. cbn.
    apply list_elem_of_filter in Ht as [Ha Ht].
    apply list_elem_of_In, in_seq in Ht.
    exists t. repeat split; try lia; try exact Ha.
    + unfold y_of_try, ymin, ymax. specialize (Hu (rng s0 + 2 * t + 1)%nat).
      lra.
    + unfold y_of_try, ymin, ymax. specialize (Hu (rng s0 + 2 * t + 1)%nat).
      lra.
    + unfold x_of_try. specialize (Hu (rng s0 + 2 * t)%nat). nra.
    + unfold x_of_try. specialize (Hu (rng s0 + 2 * t)%nat). nra.
Qed.

End AcceptRejectProps.

Lemma sampler_accepts_under_envelope_witness :
  exists fuel s,
    AcceptReject.sampler AcceptReject.half_quarter 0 1 fuel 2
      {| AcceptReject.rng := 0; AcceptReject.x_transformation := [];
         AcceptReject.N_try := 0; AcceptReject.x_accepted := [] |} = Some s.
Proof.
  apply (AcceptRejectProps.sampler_accepts_under_envelope
           AcceptReject.half_quarter 0 1 2).
  - intros k. unfold AcceptReject.half_quarter. destruct (Nat.even k); lra.
  - lra.
  - intros n. exists n. split; [lia|].
    unfold AcceptReject.accepted, AcceptReject.y_of_try, AcceptReject.x_of_try,
      AcceptReject.ymin, AcceptReject.ymax, AcceptReject.half_quarter.
    cbn [AcceptReject.rng]. rewrite !Nat.add_0_l.
    rewrite Nat.even_even, Nat.even_odd. lra.
Defined.

Module NotebookProps.
Import Notebooks.

(** With its flag off, no notebook writes a file or raises on a figure
    name. *)
Lemma flag_off_writes_nothing Nexp (nb : bool -> cell unit) :
  nb ∈ flag_notebooks Nexp ->
  (run (nb false)).1 = inr tt /\ files_written (run (nb false)).2 = [].
Proof.
  unfold flag_notebooks. rewrite !elem_of_cons, elem_of_nil.
  intros H. destruct_or!; subst nb; try contradiction;
    try (split; reflexivity);
    unfold ChiSquareTest, Chi2Distributions;
    destruct (Nat.ltb 1 Nexp); split; reflexivity.
Qed.

(** C4 at the failing input: with [SaveFigures = True] the calibration
    notebook reads its data file, then raises [NameError] on [fig_rel],
    the figure being bound to [fig_RD], and writes no file. *)
Theorem calibration_save_raises_NameError :
  (run (Calibration true)).1 = inl (NameError "fig_rel") /\
  files_read (run (Calibration true)).2 = ["data_calib.txt"] /\
  files_written (run (Calibration true)).2 = [].
Proof. vm_compute. repeat split. Qed.

End NotebookProps.

Section SaveFlagOn.
Import Notebooks.

(** With the flag on, every other notebook that names a PDF file writes
    it (the two chi-square notebooks for more than one experiment). *)
Lemma flag_on_writes_named_pdfs Nexp :
  (1 < Nexp)%nat ->
  files_written (run (FisherDiscriminant true)).2
    = ["FisherInputHists_corr.pdf"; "FisherInputHists.pdf"] /\
  files_written (run (HarmonicOscillator true)).2 = ["Fit_HarmOsc1.pdf"] /\
  files_written (run (PiEstimate true)).2 = ["HitDist.pdf"] /\
  files_written (run (AnalyticalLinearFit true)).2
    = ["AnalyticalLinearFit.pdf"] /\
  files_written (run (ChiSquareTest Nexp true)).2
    = ["FitResultDistributions.pdf"; "FitToLine.pdf"] /\
  files_written (run (Chi2Distributions Nexp true)).2
    = ["Chi2Dist_SeveralCases.pdf"; "Chi2Dist_ExponentialFit.pdf";
       "Chi2Dist_OscillationFit.pdf"; "Chi2Dist_LinearFit.pdf"] /\
  files_written (run (BinomialPoissonGaussian true)).2
    = ["BinomialPoissonGaussian.pdf"] /\
  files_written (run (TransformationAcceptReject true)).2
    = ["Hist_2x_AcceptRejectMethod.pdf"; "Hist_2x_TransformationMethod.pdf"].
Proof.
  intros HN. unfold ChiSquareTest, Chi2Distributions.
  destruct (Nat.ltb_spec 1 Nexp); [|lia].
  repeat split; vm_compute; reflexivity.
Qed.

End SaveFlagOn.

(** * Further properties of the notebooks' code *)

Section MomentLemmas.

Lemma np_sum_affine (k c : R) (a : list R) :
  np_sum (map (fun v => k * v + c) a) = k * np_sum a + INR (length a) * c.
Proof.
  unfold np_sum. induction a as [|v a IH]; [cbn; ring|].
  cbn [map foldr length]. rewrite S_INR, IH. ring.
Qed.

Lemma np_mean_affine (k c : R) (a : list R) :
  a <> [] -> np_mean (map (fun v => k * v + c) a) = k * np_mean a + c.
Proof.
  intros Ha. unfold np_mean. rewrite np_sum_affine, length_map.
  assert (INR (length a) <> 0).
  { apply not_0_INR. destruct a; [contradiction|discriminate]. }
  now field.
Qed.

Lemma np_sum_scale_list (k : R) (a : list R) :
  np_sum (map (fun v => k * v) a) = k * np_sum a.
Proof.
  unfold np_sum. induction a as [|v a IH]; [cbn; ring|].
  cbn [map foldr]. rewrite IH. ring.
Qed.

Lemma np_sum_products_nonneg (f : R -> R) (a : list R) :
  0 <= np_sum (map (fun v => f v * f v) a).
Proof.
  unfold np_sum. induction a as [|v a IH]; cbn [map foldr]; [lra|nra].
Qed.

Lemma vmul_comm (a b : list R) : vmul a b = vmul b a.
Proof.
  unfold vmul. revert b. induction a as [|v a IH]; intros [|w b];
    try reflexivity.
  cbn. rewrite IH. f_equal. ring.
Qed.

Lemma np_std_affine (ddof : nat) (k c : R) (a : list R) :
  a <> [] ->
  np_std ddof (map (fun v => k * v + c) a) = Rabs k * np_std ddof a.
Proof.
  intros Ha. unfold np_std. rewrite np_mean_affine by exact Ha.
  rewrite map_map, length_map.
  rewrite (List.map_ext _ (fun v => (k * k) * ((v - np_mean a) * (v - np_mean a))))
    by (intros v; ring).
  rewrite <- (map_map (fun v => (v - np_mean a) * (v - np_mean a))
                (fun t => k * k * t)).
  rewrite np_sum_scale_list.
  unfold Rdiv. rewrite Rmult_assoc, sqrt_mult_alt by nra.
  f_equal. fold (Rsqr k). apply sqrt_Rsqr_abs.
Qed.

End MomentLemmas.

Module FisherStatsProps.
Import Fisher FisherStats.

(** X1: the covariance helper is symmetric in its two arguments, in
    value and in failure; in the covariance loop, over all pairs of
    variables of a species, no call fails (the two columns passed have
    one length) and the array filled is symmetric in [ivar] and [jvar]. *)
Theorem covariance_symmetric :
  (forall X Y, get_covariance_offdiag X Y = get_covariance_offdiag Y X) /\
  (forall data ispec,
      Forall (fun ivar =>
        Forall (fun jvar =>
          covariance data ivar jvar ispec = covariance data jvar ivar ispec /\
          is_Some (covariance data ivar jvar ispec))
          (seq 0 nvar))
        (seq 0 nvar)).
Proof.
  assert (Hsym : forall X Y,
             get_covariance_offdiag X Y = get_covariance_offdiag Y X).
  { intros X Y. unfold get_covariance_offdiag.
    destruct (decide (length X = length Y)) as [Hlen|Hlen].
    - rewrite !bool_decide_eq_true_2 by congruence. rewrite Hlen.
      do 3 f_equal. apply vmul_comm.
    - rewrite !bool_decide_eq_false_2 by congruence. reflexivity. }
  split; [exact Hsym|]. intros data ispec.
  apply Forall_forall. intros ivar _. apply Forall_forall. intros jvar _.
  split; [apply Hsym|].
  unfold covariance, get_covariance_offdiag, data_spec_var, column.
  rewrite bool_decide_eq_true_2 by (now rewrite !length_map). eauto.
Qed.

(** X2: on the diagonal the covariance cell gives the square of the
    sample standard deviation that the plotting loop stores in [std],
    for every species with at least two flowers. *)
Theorem covariance_diagonal (data : dataset) (ivar ispec : nat) :
  (ivar < nvar)%nat -> (ispec < nspec)%nat ->
  (2 <= length (data_spec_var data ispec ivar))%nat ->
  exists sd,
    std_of data !! ispec ≫= (fun row => row !! ivar) = Some sd /\
    covariance data ivar ivar ispec = Some (sd ^ 2).
Proof.
  intros Hi Hs Hlen. eexists. split.
  - unfold std_of. rewrite lookup_tabulate, decide_True by exact Hs.
    cbn [mbind option_bind]. now rewrite lookup_tabulate, decide_True by exact Hi.
  - unfold covariance, get_covariance_offdiag.
    rewrite bool_decide_eq_true_2 by reflexivity. f_equal.
    unfold np_std. rewrite pow2_sqrt.
    + do 2 f_equal. unfold vmul. now rewrite zip_with_map_map.
    + apply Rmult_le_pos;
        [apply (np_sum_products_nonneg (fun v => v - np_mean _))|].
      left. apply Rinv_0_lt_compat, lt_0_INR. lia.
Qed.

End FisherStatsProps.

Lemma covariance_diagonal_witness :
  exists sd,
    FisherStats.std_of FisherStats.versicolor_pair !! 1%nat
      ≫= (fun row => row !! 0%nat) = Some sd /\
    FisherStats.covariance FisherStats.versicolor_pair 0 0 1 = Some (sd ^ 2).
Proof.
  apply (FisherStatsProps.covariance_diagonal FisherStats.versicolor_pair 0 1).
  - unfold Fisher.nvar. lia.
  - unfold Fisher.nspec. lia.
  - vm_compute. lia.
Defined.

Module SeparationProps.
Import Fisher.

(** X3: the separation of two non-empty samples does not change when
    both are measured in another unit or from another origin: it is
    invariant under a common affine map [v -> k * v + c] with [k <> 0]. *)
Theorem calc_separation_affine_invariant (x y : list R) (k c : R) :
  x <> [] -> y <> [] -> k <> 0 ->
  calc_separation (map (fun v => k * v + c) x) (map (fun v => k * v + c) y)
  = calc_separation x y.
Proof.
  intros Hx Hy Hk. unfold calc_separation. cbv zeta.
  rewrite !np_mean_affine, !np_std_affine by assumption.
  replace (k * np_mean x + c - (k * np_mean y + c))
    with (k * (np_mean x - np_mean y)) by ring.
  rewrite Rabs_mult.
  replace ((Rabs k * np_std 1 x) ^ 2 + (Rabs k * np_std 1 y) ^ 2)
    with (Rsqr (Rabs k) * (np_std 1 x ^ 2 + np_std 1 y ^ 2))
    by (unfold Rsqr; ring).
  assert (Hak : 0 < Rabs k) by now apply Rabs_pos_lt.
  rewrite sqrt_mult_alt by apply Rle_0_sqr.
  rewrite sqrt_Rsqr by lra.
  unfold Rdiv. rewrite Rinv_mult.
  set (d := Rabs (np_mean x - np_mean y)).
  set (r := / sqrt (np_std 1 x ^ 2 + np_std 1 y ^ 2)).
  replace (Rabs k * d * (/ Rabs k * r)) with (Rabs k * / Rabs k * (d * r))
    by ring.
  rewrite Rinv_r by lra. ring.
Qed.

End SeparationProps.

Lemma calc_separation_affine_invariant_witness :
  Fisher.calc_separation (map (fun v => 10 * v + 3) [0; 2])
                         (map (fun v => 10 * v + 3) [1; 5])
  = Fisher.calc_separation [0; 2] [1; 5].
Proof.
  apply SeparationProps.calc_separation_affine_invariant.
  - discriminate.
  - discriminate.
  - lra.
Defined.

Section RangeLemmas.
Import Calibration.

Lemma linspace_in_range lo hi n :
  lo <= hi -> Forall (fun e => lo <= e <= hi) (linspace lo hi (S n)).
Proof.
  intros Hle. unfold linspace. apply Forall_map, Forall_forall.
  intros i Hi. apply list_elem_of_In, in_seq in Hi. cbn beta.
  assert (Hn : 0 < INR (S n)) by (apply lt_0_INR; lia).
  assert (H0 : 0 <= INR i) by apply pos_INR.
  assert (H1 : INR i <= INR (S n)) by (apply le_INR; lia).
  set (t := (hi - lo) / INR (S n)).
  assert (Ht : 0 <= t).
  { unfold t. apply Rmult_le_pos; [lra|]. left. now apply Rinv_0_lt_compat. }
  assert (Htn : INR (S n) * t = hi - lo) by (unfold t; field; lra).
  split; [nra|].
  assert (INR i * t <= INR (S n) * t) by now apply Rmult_le_compat_r.
  lra.
Qed.

Lemma outer_edges_ordered range smin smax :
  outer_edges range = Some (smin, smax) -> smin < smax.
Proof.
  destruct range as [lo hi]. unfold outer_edges.
  repeat case_bool_decide; intros [= <- <-]; lra.
Qed.

Lemma outer_edges_proper lo hi :
  lo < hi -> outer_edges (lo, hi) = Some (lo, hi).
Proof.
  intros Hlt. unfold outer_edges.
  now rewrite !bool_decide_eq_false_2 by lra.
Qed.

Lemma bin_edges_in_range n lo hi edges :
  lo < hi -> bin_edges n (lo, hi) = Some edges ->
  Forall (fun e => lo <= e <= hi) edges.
Proof.
  intros Hlt. destruct n as [|n]; [discriminate|].
  unfold bin_edges. rewrite outer_edges_proper by exact Hlt.
  cbn [mbind option_bind]. intros [= <-]. apply linspace_in_range. lra.
Qed.

Lemma Forall_removelast {A} (P : A -> Prop) (l : list A) :
  Forall P l -> Forall P (removelast l).
Proof.
  induction 1 as [|a l Ha Hl IH]; [constructor|].
  cbn. destruct l; [constructor|]. now constructor.
Qed.

Lemma centers_in_range lo hi edges :
  Forall (fun e => lo <= e <= hi) edges ->
  Forall (fun c => lo <= c <= hi) (centers edges).
Proof.
  intros He. unfold centers, vscale, vadd.
  assert (Ht : Forall (fun e => lo <= e <= hi) (tail edges))
    by (destruct He; [constructor|assumption]).
  assert (Hr := Forall_removelast _ _ He).
  revert Hr. generalize (removelast edges).
  induction Ht as [|a l Ha _ IH]; intros r Hr; [constructor|].
  destruct Hr as [|b r Hb Hr]; [constructor|].
  cbn [zip_with map]. constructor; [lra|]. now apply IH.
Qed.

Lemma weighted_sum_bounds lo hi (w yc : list R) :
  length w = length yc ->
  Forall (fun p => 0 <= p) w -> Forall (fun c => lo <= c <= hi) yc ->
  lo * np_sum w <= np_sum (vmul w yc) <= hi * np_sum w.
Proof.
  unfold np_sum, vmul. intros Hlen Hw. revert yc Hlen.
  induction Hw as [|p w Hp _ IH]; intros [|c yc] Hlen Hy; try discriminate.
  - cbn. lra.
  - injection Hlen as Hlen. apply Forall_cons_1 in Hy as [Hc Hy].
    specialize (IH yc Hlen Hy). cbn [zip_with foldr]. nra.
Qed.

Lemma bin_mean_in_range lo hi (row yc : list R) :
  length row = length yc ->
  Forall (fun p => 0 <= p) row -> 0 < np_sum row ->
  Forall (fun c => lo <= c <= hi) yc ->
  lo <= bin_mean row yc <= hi.
Proof.
  intros Hlen Hw Hpos Hy. unfold bin_mean.
  destruct (weighted_sum_bounds lo hi row yc Hlen Hw Hy) as [H1 H2].
  assert (Hinv : 0 < / np_sum row) by now apply Rinv_0_lt_compat.
  assert (Hone : np_sum row * / np_sum row = 1) by (apply Rinv_r; lra).
  unfold Rdiv. split.
  - replace lo with (lo * np_sum row * / np_sum row)
      by (rewrite Rmult_assoc, Hone; ring).
    apply Rmult_le_compat_r; lra.
  - replace hi with (hi * np_sum row * / np_sum row)
      by (rewrite Rmult_assoc, Hone; ring).
    apply Rmult_le_compat_r; lra.
Qed.

Lemma histogram2d_parts x y bins range H xedges yedges :
  histogram2d x y bins range = Some (H, xedges, yedges) ->
  bin_edges bins.1 range.1 = Some xedges /\
  bin_edges bins.2 range.2 = Some yedges /\
  Forall (Forall (fun p => 0 <= p)) H.
Proof.
  unfold histogram2d. case_bool_decide; [|discriminate].
  destruct (bin_edges bins.1 range.1) as [xe|]; [|discriminate].
  destruct (bin_edges bins.2 range.2) as [ye|]; [|discriminate].
  cbn [mbind option_bind]. intros [= <- <- <-]. repeat split.
  apply Forall_map, Forall_forall. intros i _.
  apply Forall_map, Forall_forall. intros j _. apply pos_INR.
Qed.

End RangeLemmas.

Module ProfileRangeProps.
Import Calibration.

(** X4: over a proper range, every bin center that [profile_x] returns
    lies in the x-range, every mean lies in the y-range, and there are
    at most [bins[0]] entries. *)
Theorem profile_x_within_range (x y : list R) (bins : nat * nat)
    (xlo xhi ylo yhi : R) (x_center mean std : list R) :
  xlo < xhi -> ylo < yhi ->
  profile_x x y bins ((xlo, xhi), (ylo, yhi)) = Some (x_center, mean, std) ->
  Forall (fun c => xlo <= c <= xhi) x_center /\
  Forall (fun m => ylo <= m <= yhi) mean /\
  (length x_center <= bins.1)%nat.
Proof.
  intros Hx Hy Hrun.
  destruct (histogram2d x y bins (xlo, xhi, (ylo, yhi)))
    as [[[H xedges] yedges]|] eqn:Hhist.
  2:{ unfold profile_x in Hrun. now rewrite Hhist in Hrun. }
  rewrite (profile_x_closed_form _ _ _ _ _ _ _ Hhist) in Hrun.
  cbv zeta in Hrun. injection Hrun as <- <- <-.
  destruct (histogram2d_parts _ _ _ _ _ _ _ Hhist) as (Hxe & Hye & Hcounts).
  destruct (histogram2d_shape _ _ _ _ _ _ _ Hhist) as (HlenH & Hrows & Hxc & Hyc).
  cbn [fst snd] in Hxe, Hye.
  apply bin_edges_in_range in Hxe; [|exact Hx].
  apply bin_edges_in_range in Hye; [|exact Hy].
  apply centers_in_range in Hxe, Hye.
  assert (Hsub : forall b, b ∈ nonempty_bins H xedges ->
             b ∈ zip (centers xedges) H /\ 0 < np_sum b.2).
  { intros b Hb. apply list_elem_of_filter in Hb. tauto. }
  repeat split.
  - apply Forall_map, Forall_forall. intros [c row] Hb. cbn.
    apply Hsub in Hb as [Hb _]. apply elem_of_zip_l in Hb.
    rewrite Forall_forall in Hxe. now apply Hxe.
  - apply Forall_map, Forall_forall. intros [c row] Hb. cbn.
    apply Hsub in Hb as [Hb Hpos]. apply elem_of_zip_r in Hb.
    rewrite Forall_forall in Hrows, Hcounts.
    apply bin_mean_in_range; [|now apply Hcounts|exact Hpos|exact Hye].
    rewrite (Hrows _ Hb). lia.
  - rewrite length_map. unfold nonempty_bins.
    etransitivity; [apply length_filter|]. rewrite length_zip_with. lia.
Qed.

End ProfileRangeProps.

Lemma profile_x_within_range_witness :
  Forall (fun c => 0 <= c <= 2) [1 / 2] /\
  Forall (fun m => -1 <= m <= 1) [0] /\
  (length [1 / 2] <= 2)%nat.
Proof.
  apply (ProfileRangeProps.profile_x_within_range
           Calibration.x_sample Calibration.y_sample (2%nat, 2%nat) 0 2 (-1) 1
           [1 / 2] [0] [1 / 4]).
  - lra.
  - lra.
  - exact profile_x_sample.
Defined.

Section OutlierLemmas.

Lemma bin_number_below (edges : list R) (v : R) :
  Forall (fun e => v < e) edges -> bin_number edges v = 0%nat.
Proof.
  intros Hlt. unfold bin_number, searchsorted_right.
  assert (Hnil : filter (fun e => e <= v) edges = []).
  { induction Hlt as [|e l He _ IH]; [reflexivity|].
    rewrite filter_cons, decide_False by lra. exact IH. }
  rewrite Hnil. now destruct (bool_decide _).
Qed.

Lemma bin_number_above (edges : list R) (v : R) :
  Forall (fun e => e < v) edges -> bin_number edges v = length edges.
Proof.
  intros Hlt. unfold bin_number, searchsorted_right.
  assert (Hall : filter (fun e => e <= v) edges = edges).
  { induction Hlt as [|e l He _ IH]; [reflexivity|].
    rewrite filter_cons, decide_True by lra. now rewrite IH. }
  rewrite Hall, bool_decide_eq_false_2; [reflexivity|].
  intros Hlast. apply last_Some_elem_of in Hlast.
  rewrite Forall_forall in Hlt. specialize (Hlt _ Hlast). lra.
Qed.

(** A sample outside the edges of an axis falls in no core bin. *)
Lemma bin_number_outside n lo hi edges v i :
  lo < hi -> bin_edges n (lo, hi) = Some edges ->
  v < lo \/ hi < v -> (i < n)%nat -> bin_number edges v <> S i.
Proof.
  intros Hlt Hedges Hout Hi.
  assert (Hlen := bin_edges_length _ _ _ Hedges).
  apply bin_edges_in_range in Hedges; [|exact Hlt].
  destruct Hout as [Hv|Hv].
  - rewrite bin_number_below; [discriminate|].
    eapply Forall_impl; [exact Hedges|]. cbn. intros; lra.
  - rewrite bin_number_above; [lia|].
    eapply Forall_impl; [exact Hedges|]. cbn. intros; lra.
Qed.

Lemma histogram2d_ignores_outlier x y bins xlo xhi ylo yhi a b :
  xlo < xhi -> ylo < yhi ->
  a < xlo \/ xhi < a \/ b < ylo \/ yhi < b ->
  histogram2d (a :: x) (b :: y) bins ((xlo, xhi), (ylo, yhi))
  = histogram2d x y bins ((xlo, xhi), (ylo, yhi)).
Proof.
  intros Hx Hy Hout. unfold histogram2d. cbn [fst snd].
  destruct (decide (length x = length y)) as [Hlen|Hlen].
  2:{ rewrite !bool_decide_eq_false_2; [reflexivity|exact Hlen|].
      cbn [length]. congruence. }
  rewrite !bool_decide_eq_true_2 by (cbn [length]; congruence).
  destruct (bin_edges bins.1 (xlo, xhi)) as [xedges|] eqn:Hxe; [|reflexivity].
  destruct (bin_edges bins.2 (ylo, yhi)) as [yedges|] eqn:Hye; [|reflexivity].
  cbn [mbind option_bind]. do 3 f_equal.
  apply map_ext_in. intros i Hi. apply in_seq in Hi.
  apply map_ext_in. intros j Hj. apply in_seq in Hj.
  cbn [zip zip_with]. rewrite filter_cons, decide_False; [reflexivity|].
  cbn [fst snd]. intros [Ha Hb].
  destruct Hout as [Hout|[Hout|[Hout|Hout]]].
  - eapply (bin_number_outside _ _ _ _ a i Hx Hxe); [tauto|lia|exact Ha].
  - eapply (bin_number_outside _ _ _ _ a i Hx Hxe); [tauto|lia|exact Ha].
  - eapply (bin_number_outside _ _ _ _ b j Hy Hye); [tauto|lia|exact Hb].
  - eapply (bin_number_outside _ _ _ _ b j Hy Hye); [tauto|lia|exact Hb].
Qed.

End OutlierLemmas.

Module ProfileOutlierProps.
Import Calibration.

(** X5: a sample whose x lies outside the x-range or whose y lies
    outside the y-range has no influence on [profile_x]: the result with
    and without it is the same. *)
Theorem profile_x_ignores_outlier (x y : list R) (bins : nat * nat)
    (xlo xhi ylo yhi a b : R) :
  xlo < xhi -> ylo < yhi ->
  a < xlo \/ xhi < a \/ b < ylo \/ yhi < b ->
  profile_x (a :: x) (b :: y) bins ((xlo, xhi), (ylo, yhi))
  = profile_x x y bins ((xlo, xhi), (ylo, yhi)).
Proof.
  intros Hx Hy Hout. unfold profile_x.
  now rewrite histogram2d_ignores_outlier.
Qed.

End ProfileOutlierProps.

Lemma profile_x_ignores_outlier_witness :
  Calibration.profile_x (5 :: Calibration.x_sample) (0 :: Calibration.y_sample)
    (2%nat, 2%nat) ((0, 2), (-1, 1))
  = Calibration.profile_x Calibration.x_sample Calibration.y_sample
      (2%nat, 2%nat) ((0, 2), (-1, 1)).
Proof.
  apply ProfileOutlierProps.profile_x_ignores_outlier; lra.
Defined.

Section SmallDatasetLemmas.
Import LinearFit.

Lemma Delta_first_nonneg (n : Z) : (0 <= n -> 0 <= n ^ 2 * (n ^ 2 - 1))%Z.
Proof. intros Hn. assert (n = 0 \/ 1 <= n)%Z as [->|H1] by lia; nia. Qed.

Lemma Delta_of_generate_x_small N :
  (Z.of_nat N <= 102569)%Z ->
  (12 * Delta_of (generate_x N) = Z.of_nat N ^ 2 * (Z.of_nat N ^ 2 - 1))%Z.
Proof.
  intros HN. rewrite Delta_of_generate_x, <- Delta_exact_first_div.
  assert (H12 := Delta_exact_first N).
  assert (Hm := Delta_first_monotone (Z.of_nat N) 102569 ltac:(lia)).
  assert (H0 := Delta_first_nonneg (Z.of_nat N) ltac:(lia)).
  rewrite int64_fits; [exact H12|]. unfold fits_int64. lia.
Qed.

Lemma no_overflow_generate_x N :
  (Z.of_nat N <= 102569)%Z -> no_overflow (generate_x N).
Proof.
  intros HN. rewrite generate_x_fits by lia.
  assert (H1 := Zsum_first N). assert (H2 := Zsum_first_squares N).
  assert (H12 := Delta_exact_first N).
  assert (Hm := Delta_first_monotone (Z.of_nat N) 102569 ltac:(lia)).
  assert (H0 := Delta_first_nonneg (Z.of_nat N) ltac:(lia)).
  unfold no_overflow, fits_int64. repeat split; nia.
Qed.

Lemma Delta_of_generate_x_nonzero N :
  (2 <= Z.of_nat N <= 102569)%Z -> Delta_of (generate_x N) <> 0%Z.
Proof.
  intros HN. assert (H := Delta_of_generate_x_small N ltac:(lia)). nia.
Qed.

Lemma real_Delta_nonneg (x : list R) :
  0 <= np_sum (vpow x 2) * INR (length x) - np_sum x ^ 2.
Proof.
  destruct x as [|v x]; [unfold vpow, np_sum; cbn; lra|].
  assert (Hn : 0 < INR (length (v :: x))) by (apply lt_0_INR; cbn; lia).
  assert (Hs := np_sum_squares_nonneg
                  (fun t => - np_sum (v :: x) + INR (length (v :: x)) * t)
                  (v :: x)).
  cbv beta in Hs. rewrite np_sum_line_squares in Hs. nra.
Qed.

Lemma Zsum_replicate n (c : Z) : Zsum (replicate n c) = (Z.of_nat n * c)%Z.
Proof.
  unfold Zsum. induction n as [|n IH]; [reflexivity|].
  cbn [replicate foldr]. rewrite IH. lia.
Qed.

End SmallDatasetLemmas.

Module DeltaProps.
Import LinearFit.

(** X6: for the abscissas 1, ..., Npoints that the notebook generates,
    [Delta] is Npoints^2 (Npoints^2 - 1) / 12 reduced to [int64]; it is
    that number itself exactly up to 102569 points, and within that
    bound it is positive, so that the divisions of the fit are defined,
    exactly when there are at least two points. *)
Theorem Delta_of_generated_points (Npoints : nat) :
  let n := Z.of_nat Npoints in
  Delta_of (generate_x Npoints) = int64 (n ^ 2 * (n ^ 2 - 1) / 12) /\
  (Delta_of (generate_x Npoints) = (n ^ 2 * (n ^ 2 - 1) / 12)%Z
   <-> (n <= 102569)%Z) /\
  ((n <= 102569)%Z ->
   ((0 < Delta_of (generate_x Npoints))%Z <-> (2 <= n)%Z) /\
   (Delta_of (generate_x Npoints) = 0%Z <-> (n <= 1)%Z)).
Proof.
  cbv zeta. split; [apply Delta_of_generate_x|].
  assert (H12 := Delta_exact_first Npoints).
  rewrite Delta_exact_first_div in H12.
  assert (Hn : (0 <= Z.of_nat Npoints)%Z) by lia.
  split.
  - split.
    + intros Heq.
      assert (Hr := int64_range
                      (Z.of_nat Npoints ^ 2 * (Z.of_nat Npoints ^ 2 - 1) / 12)).
      rewrite <- Delta_of_generate_x, Heq in Hr. unfold fits_int64 in Hr.
      destruct (Z_le_gt_dec (Z.of_nat Npoints) 102569) as [Hle|Hgt];
        [exact Hle|exfalso].
      assert (Hm := Delta_first_monotone 102570 (Z.of_nat Npoints)
                      ltac:(lia)).
      lia.
    + intros Hle.
      assert (Hs := Delta_of_generate_x_small Npoints Hle). lia.
  - intros Hle.
    assert (Hs := Delta_of_generate_x_small Npoints Hle).
    set (n := Z.of_nat Npoints) in *.
    assert (Hcases : (n = 0 \/ n = 1 \/ 2 <= n)%Z) by lia.
    destruct Hcases as [E|[E|H2]].
    + rewrite E in Hs. split; split; intros H; lia.
    + rewrite E in Hs. split; split; intros H; lia.
    + assert (H4 : (4 <= n ^ 2)%Z) by nia.
      assert (Hpos : (0 < n ^ 2 * (n ^ 2 - 1))%Z) by nia.
      split; split; intros H; lia.
Qed.

(** X7: when the exact [Delta] of an array fits into [int64], the
    computed one is nonnegative; it is zero when all abscissas are
    equal (in particular for no point or one point): then both fitted
    parameters are quotients by zero. *)
Theorem Delta_of_nonnegative :
  (forall x, fits_int64 (Delta_exact x) -> (0 <= Delta_of x)%Z) /\
  (forall n c, Delta_of (replicate n c) = 0%Z).
Proof.
  split.
  - intros x Hfit. rewrite Delta_of_no_overflow by exact Hfit.
    apply le_IZR. rewrite IZR_Delta_exact.
    rewrite <- (length_map IZR x). apply real_Delta_nonneg.
  - intros n c. rewrite Delta_of_wraps. unfold Delta_exact.
    replace (map (fun v => v ^ 2)%Z (replicate n c)) with (replicate n (c ^ 2)%Z).
    + rewrite !Zsum_replicate, length_replicate.
      replace (Z.of_nat n * c ^ 2 * Z.of_nat n - (Z.of_nat n * c) ^ 2)%Z
        with 0%Z by ring.
      reflexivity.
    + induction n as [|n IH]; [reflexivity|]. cbn [replicate map]. now f_equal.
Qed.

End DeltaProps.

Lemma Delta_of_generated_points_witness :
  (0 < LinearFit.Delta_of (LinearFit.generate_x 9))%Z.
Proof.
  destruct (DeltaProps.Delta_of_generated_points 9) as (_ & _ & H).
  apply H; lia.
Defined.

Lemma Delta_of_nonnegative_witness :
  (0 <= LinearFit.Delta_of [1; 2; 3])%Z.
Proof.
  destruct DeltaProps.Delta_of_nonnegative as [H _].
  apply H. unfold fits_int64, LinearFit.Delta_exact, Zsum.
  cbn [map foldr length]. lia.
Defined.

Section EquivarianceLemmas.
Import LinearFit ChiSquareOwn.

(** The fit of a line plus noise is the line plus the fit of the noise. *)
Lemma analytical_fit_generate_y chi2_sf a0 a1 (x : list Z) (noise : list R)
    sigmay :
  length noise = length x -> no_overflow x ->
  Delta_of x <> 0%Z -> sigmay <> 0 ->
  exists f g,
    analytical_fit chi2_sf x (generate_y a0 a1 x noise) sigmay = Some f /\
    analytical_fit chi2_sf x noise sigmay = Some g /\
    alpha0_calc f = a0 + alpha0_calc g /\
    alpha1_calc f = a1 + alpha1_calc g /\
    Chi2_calc f = Chi2_calc g /\
    alpha0_calc g
    = (np_sum noise * np_sum (vpow (map IZR x) 2)
       - np_sum (vmul (map IZR x) noise) * np_sum (map IZR x))
      / IZR (Delta_of x) /\
    alpha1_calc g
    = (np_sum (vmul (map IZR x) noise) * INR (length x)
       - np_sum noise * np_sum (map IZR x))
      / IZR (Delta_of x) /\
    Chi2_calc g
    = chi2_of (map IZR x) noise sigmay (alpha0_calc g) (alpha1_calc g) /\
    Prob_calc f = Prob_calc g.
Proof.
  intros Hlen Hfit Hnz Hs.
  destruct (Delta_in_range x Hfit Hnz) as [HD HDnz].
  destruct Hfit as (Hsx & Hsxx & _).
  assert (Hleny := length_generate_y a0 a1 x noise Hlen).
  assert (Hlx : length noise = length (map IZR x)) by now rewrite length_map.
  destruct (analytical_fit_eval chi2_sf x _ sigmay Hleny Hsx Hsxx Hnz Hs)
    as (f & Hf & F0 & F1 & Fc & Fn & Fp).
  destruct (analytical_fit_eval chi2_sf x noise sigmay Hlen Hsx Hsxx Hnz Hs)
    as (g & Hg & G0 & G1 & Gc & Gn & Gp).
  cbv zeta in F0, F1, Fc, G0, G1, Gc.
  rewrite <- F0, <- F1 in Fc. rewrite <- G0, <- G1 in Gc.
  exists f, g. split; [exact Hf|]. split; [exact Hg|].
  rewrite generate_y_reals in F0, F1, Fc.
  rewrite np_sum_line_plus, np_sum_x_line_plus in F0, F1 by exact Hlx.
  rewrite length_map in F0, F1.
  assert (E0 : alpha0_calc f = a0 + alpha0_calc g).
  { rewrite F0, G0, HD. field. exact HDnz. }
  assert (E1 : alpha1_calc f = a1 + alpha1_calc g).
  { rewrite F1, G1, HD. field. exact HDnz. }
  assert (Ec : Chi2_calc f = Chi2_calc g).
  { rewrite Fc, Gc, E0, E1. now apply chi2_of_line_plus. }
  split; [exact E0|]. split; [exact E1|]. split; [exact Ec|].
  split; [exact G0|]. split; [exact G1|].
  split; [exact Gc|].
  now rewrite Fp, Gp, Ec, Fn, Gn.
Qed.

Lemma chi2_owncalc_eq (x y : list R) sigmay a b :
  length y = length x ->
  chi2_owncalc x y (vscale sigmay (map (fun _ => 1) x)) a b
  = chi2_of x y sigmay a b.
Proof.
  unfold chi2_owncalc, chi2_of, fit_function, vpow, vdiv, vsub, vscale.
  cbv zeta. intros Hlen. f_equal. revert y Hlen.
  induction x as [|v x IH]; intros [|w y] Hlen; try discriminate;
    [reflexivity|].
  injection Hlen as Hlen. cbn [map zip_with]. rewrite (IH y Hlen).
  f_equal. rewrite Rmult_1_r. reflexivity.
Qed.

End EquivarianceLemmas.

Module FitEquivarianceProps.
Import LinearFit ChiSquareOwn.

(** X8: as long as none of the integers of the fit wraps around,
    fitting data generated as a line plus noise gives the parameters of
    the line plus the parameters fitted to the noise alone, with the
    same [Chi2_calc] and [Prob_calc]: the quality of the fit does not
    depend on the true [alpha0] and [alpha1]. *)
Theorem analytical_fit_line_plus_noise (chi2_sf : R -> Z -> R)
    (alpha0 alpha1 : R) (x : list Z) (noise : list R) (sigmay : R) :
  length noise = length x -> no_overflow x ->
  Delta_of x <> 0%Z -> sigmay <> 0 ->
  exists f g,
    analytical_fit chi2_sf x (generate_y alpha0 alpha1 x noise) sigmay = Some f /\
    analytical_fit chi2_sf x noise sigmay = Some g /\
    alpha0_calc f = alpha0 + alpha0_calc g /\
    alpha1_calc f = alpha1 + alpha1_calc g /\
    Chi2_calc f = Chi2_calc g /\
    Prob_calc f = Prob_calc g.
Proof.
  intros Hlen Hfit Hnz Hs.
  destruct (analytical_fit_generate_y chi2_sf alpha0 alpha1 x noise sigmay
              Hlen Hfit Hnz Hs)
    as (f & g & Hf & Hg & H0 & H1 & Hc & _ & _ & _ & Hp).
  exists f, g. repeat split; assumption.
Qed.

(** X9: without noise, and as long as none of the integers of the fit
    wraps around, the analytical fit returns the generating parameters
    exactly, with [Chi2_calc = 0]. *)
Theorem analytical_fit_exact_line (chi2_sf : R -> Z -> R)
    (alpha0 alpha1 : R) (x : list Z) (sigmay : R) :
  no_overflow x -> Delta_of x <> 0%Z -> sigmay <> 0 ->
  exists f,
    analytical_fit chi2_sf x
      (generate_y alpha0 alpha1 x (map (fun _ => 0) x)) sigmay = Some f /\
    alpha0_calc f = alpha0 /\ alpha1_calc f = alpha1 /\ Chi2_calc f = 0.
Proof.
  intros Hfit Hnz Hs.
  destruct (analytical_fit_generate_y chi2_sf alpha0 alpha1 x
              (map (fun _ => 0) x) sigmay) as
    (f & g & Hf & Hg & H0 & H1 & Hc & G0 & G1 & Gc & _);
    [now rewrite length_map|exact Hfit|exact Hnz|exact Hs|].
  exists f. split; [exact Hf|].
  rewrite np_sum_zero_noise, np_sum_vmul_zero_noise in G0, G1.
  assert (Z0 : forall a b D : R, (0 * a - 0 * b) / D = 0)
    by (intros; unfold Rdiv; ring).
  rewrite Z0 in G0, G1. rewrite G0, G1, chi2_of_zero_noise in Gc.
  rewrite H0, H1, Hc, G0, G1, Gc. repeat split; ring.
Qed.

(** X10: for equal uncertainties the hand-written [chi2_owncalc] of
    the chi-square notebook, on the same [int64] abscissas, is the sum
    that the analytical notebook accumulates in its loop; as long as
    none of the integers of the fit wraps around, at the analytical
    parameters it equals [Chi2_calc], and no other pair of parameters
    makes it smaller, so a minimiser of [chi2_owncalc] cannot end below
    [Chi2_calc]. *)
Theorem chi2_owncalc_minimal_at_analytical_fit (chi2_sf : R -> Z -> R)
    (x : list Z) (y : list R) (sigmay : R) :
  length y = length x -> no_overflow x ->
  Delta_of x <> 0%Z -> sigmay <> 0 ->
  exists f,
    analytical_fit chi2_sf x y sigmay = Some f /\
    let sy := vscale sigmay (map (fun _ => 1) x) in
    chi2_owncalc (map IZR x) y sy (alpha0_calc f) (alpha1_calc f)
    = Chi2_calc f /\
    forall alpha0 alpha1,
      Chi2_calc f <= chi2_owncalc (map IZR x) y sy alpha0 alpha1.
Proof.
  intros Hlen Hfit Hnz Hs.
  destruct (analytical_fit_least_squares_in_range chi2_sf x y sigmay
              Hlen Hfit Hnz Hs) as (f & Hf & _ & _ & Hmin & Hc & _).
  exists f. split; [exact Hf|]. cbv zeta.
  assert (Hown : forall a b,
             chi2_owncalc (map IZR x) y
               (vscale sigmay (map (fun _ => 1) x)) a b
             = chi2_of (map IZR x) y sigmay a b).
  { intros a b. rewrite <- chi2_owncalc_eq by now rewrite length_map.
    now rewrite map_map. }
  split.
  - now rewrite Hown, Hc.
  - intros a b. rewrite Hown, Hc. apply Hmin.
Qed.

End FitEquivarianceProps.

Lemma analytical_fit_line_plus_noise_witness :
  exists f g,
    LinearFit.analytical_fit (fun c _ => exp (- c / 2)) (LinearFit.generate_x 3)
      (LinearFit.generate_y 3.6 0.3 (LinearFit.generate_x 3) [0.1; -0.2; 0.05])
      1 = Some f /\
    LinearFit.analytical_fit (fun c _ => exp (- c / 2)) (LinearFit.generate_x 3)
      [0.1; -0.2; 0.05] 1 = Some g /\
    LinearFit.Chi2_calc f = LinearFit.Chi2_calc g.
Proof.
  destruct (FitEquivarianceProps.analytical_fit_line_plus_noise
              (fun c _ => exp (- c / 2)) 3.6 0.3 (LinearFit.generate_x 3)
              [0.1; -0.2; 0.05] 1) as (f & g & Hf & Hg & _ & _ & Hc & _).
  - reflexivity.
  - apply no_overflow_generate_x. lia.
  - apply Delta_of_generate_x_nonzero. lia.
  - lra.
  - exists f, g. repeat split; assumption.
Defined.

Lemma analytical_fit_exact_line_witness :
  exists f,
    LinearFit.analytical_fit (fun c _ => exp (- c / 2)) (LinearFit.generate_x 3)
      (LinearFit.generate_y 3.6 0.3 (LinearFit.generate_x 3)
         (map (fun _ => 0) (LinearFit.generate_x 3))) 1 = Some f /\
    LinearFit.alpha0_calc f = 3.6 /\ LinearFit.alpha1_calc f = 0.3.
Proof.
  destruct (FitEquivarianceProps.analytical_fit_exact_line
              (fun c _ => exp (- c / 2)) 3.6 0.3 (LinearFit.generate_x 3) 1)
    as (f & Hf & H0 & H1 & _).
  - apply no_overflow_generate_x. lia.
  - apply Delta_of_generate_x_nonzero. lia.
  - lra.
  - exists f. repeat split; assumption.
Defined.

Lemma chi2_owncalc_minimal_at_analytical_fit_witness :
  exists f,
    LinearFit.analytical_fit (fun c _ => exp (- c / 2)) (LinearFit.generate_x 3)
      [1; 3; 2] 1 = Some f /\
    LinearFit.Chi2_calc f
    <= ChiSquareOwn.chi2_owncalc (map IZR (LinearFit.generate_x 3)) [1; 3; 2]
         (vscale 1 (map (fun _ => 1) (LinearFit.generate_x 3))) 3 0.
Proof.
  destruct (FitEquivarianceProps.chi2_owncalc_minimal_at_analytical_fit
              (fun c _ => exp (- c / 2)) (LinearFit.generate_x 3) [1; 3; 2] 1)
    as (f & Hf & _ & Hmin).
  - reflexivity.
  - apply no_overflow_generate_x. lia.
  - apply Delta_of_generate_x_nonzero. lia.
  - lra.
  - exists f. split; [exact Hf|apply Hmin].
Defined.

Section SimulationLemmas.
Import EhrenfestSim.

Lemma count_blue_replicate n (b : Z) :
  count_blue (replicate n b) = if decide (b = 0%Z) then n else 0%nat.
Proof.
  unfold count_blue. induction n as [|n IH]; [now destruct (decide _)|].
  cbn [replicate]. rewrite filter_cons.
  destruct (decide (b = 0%Z)); cbn [length]; now rewrite IH.
Qed.

Lemma Initial_Place_eq NB :
  Initial_Place NB = replicate (Nat.min 3 NB) 0%Z ++ replicate (NB - 3) 1%Z.
Proof.
  unfold Initial_Place. cbv zeta.
  rewrite take_replicate, drop_replicate. f_equal.
  generalize (NB - 3)%nat. intros n.
  induction n as [|n IH]; [reflexivity|]. cbn. now rewrite IH.
Qed.

Lemma Initial_Place_count NB :
  length (Initial_Place NB) = NB /\ count_blue (Initial_Place NB) = Nat.min 3 NB.
Proof.
  rewrite Initial_Place_eq. split.
  - rewrite length_app, !length_replicate. lia.
  - unfold count_blue. rewrite filter_app, length_app.
    fold (count_blue (replicate (Nat.min 3 NB) 0%Z)).
    fold (count_blue (replicate (NB - 3) 1%Z)).
    rewrite !count_blue_replicate.
    rewrite decide_True by reflexivity. rewrite decide_False by discriminate.
    lia.
Qed.

Lemma count_blue_le_length Place : (count_blue Place <= length Place)%nat.
Proof. unfold count_blue. apply length_filter. Qed.

Lemma count_blue_insert Place id b w :
  Place !! id = Some b ->
  (count_blue (<[id := w]> Place) + (if decide (b = 0%Z) then 1 else 0)
   = count_blue Place + (if decide (w = 0%Z) then 1 else 0))%nat.
Proof.
  intros Hb. assert (Hid := lookup_lt_Some _ _ _ Hb).
  rewrite <- (take_drop_middle Place id b Hb) at 2.
  rewrite insert_take_drop by exact Hid.
  unfold count_blue. rewrite !filter_app, !filter_cons, !length_app.
  destruct (decide (b = 0%Z)), (decide (w = 0%Z)); cbn [length]; lia.
Qed.

(** Moving a ball keeps the number of balls and changes the blue count
    by exactly one. *)
Lemma move_ball_count Place id Place' :
  move_ball Place id = Some Place' ->
  length Place' = length Place /\
  (count_blue Place' = count_blue Place + 1
   \/ count_blue Place = count_blue Place' + 1)%nat.
Proof.
  unfold move_ball. destruct (Place !! id) as [b|] eqn:Hb; [|discriminate].
  cbn [mbind option_bind]. case_bool_decide as Hz; intros [= <-];
    rewrite length_insert; (split; [reflexivity|]).
  - assert (H := count_blue_insert Place id b 1%Z Hb).
    rewrite decide_True in H by exact Hz. rewrite decide_False in H by discriminate.
    lia.
  - assert (H := count_blue_insert Place id b 0%Z Hb).
    rewrite decide_False in H by exact Hz.
    rewrite decide_True in H by reflexivity. lia.
Qed.

Lemma move_ball_in_range Place id :
  (id < length Place)%nat -> is_Some (move_ball Place id).
Proof.
  intros Hid. unfold move_ball.
  destruct (lookup_lt_is_Some_2 Place id Hid) as [b ->].
  cbn [mbind option_bind]. case_bool_decide; eauto.
Qed.

Lemma move_ball_out_of_range Place id :
  (length Place <= id)%nat -> move_ball Place id = None.
Proof.
  intros Hid. unfold move_ball. now rewrite lookup_ge_None_2.
Qed.

Lemma turn_invariant_step NB nturns draw k st st' :
  (k < nturns)%nat -> turn_invariant NB nturns k st ->
  turn draw (Some st) k = Some st' ->
  turn_invariant NB nturns (S k) st'.
Proof.
  intros Hk Hinv. destruct st as [Place Nballs].
  destruct Hinv as (HlenP & HlenN & H0 & Hcur & Hsteps & Hpar & Hle).
  unfold turn. cbn [mbind option_bind].
  destruct (move_ball Place (draw k)) as [Place'|] eqn:Hmove; [|discriminate].
  cbn [mbind option_bind]. unfold set_item.
  case_bool_decide as Hin; [|discriminate].
  cbn [mbind option_bind]. intros [= <-].
  apply move_ball_count in Hmove as [HlenP' Hcount].
  replace (k + 1)%nat with (S k) in * by lia.
  unfold turn_invariant. repeat split.
  - congruence.
  - now rewrite length_insert.
  - now rewrite list_lookup_insert_ne by lia.
  - now apply list_lookup_insert_eq.
  - intros t Ht. destruct (decide (t = k)) as [->|Hne].
    + exists (count_blue Place), (count_blue Place'). repeat split.
      * now rewrite list_lookup_insert_ne by lia.
      * now apply list_lookup_insert_eq.
      * exact Hcount.
    + destruct (Hsteps t) as (a & b & Ha & Hb & Hab); [lia|].
      exists a, b. rewrite !list_lookup_insert_ne by lia. auto.
  - replace (Nat.min 3 NB + S k)%nat with (S (Nat.min 3 NB + k)) by lia.
    rewrite Nat.even_succ, <- Nat.negb_even, <- Hpar.
    destruct Hcount as [-> | ->].
    + replace (count_blue Place + 1)%nat with (S (count_blue Place)) by lia.
      now rewrite Nat.even_succ, <- Nat.negb_even.
    + replace (count_blue Place' + 1)%nat with (S (count_blue Place')) by lia.
      rewrite Nat.even_succ, <- Nat.negb_even. now rewrite negb_involutive.
  - rewrite <- HlenP, <- HlenP'. apply count_blue_le_length.
Qed.

End SimulationLemmas.

Section SimulationLoop.
Import EhrenfestSim.

Variables NB nturns : nat.
Variable draw : nat -> nat.

Let start : list Z * list R :=
  (Initial_Place NB, <[0%nat := INR (count_blue (Initial_Place NB))]>
                       (replicate (nturns + 1) 0)).

Lemma turn_invariant_start : turn_invariant NB nturns 0 start.
Proof.
  destruct (Initial_Place_count NB) as [Hlen Hcount].
  unfold start, turn_invariant. rewrite Hcount.
  assert (Hin : (0 < length (replicate (nturns + 1) 0%R))%nat)
    by (rewrite length_replicate; lia).
  repeat split.
  - exact Hlen.
  - now rewrite length_insert, length_replicate.
  - now apply list_lookup_insert_eq.
  - now apply list_lookup_insert_eq.
  - intros t Ht. lia.
  - now rewrite Nat.add_0_r.
  - lia.
Qed.

Lemma turns_succeed k :
  (k <= nturns)%nat -> (forall t, (t < k)%nat -> (draw t < NB)%nat) ->
  exists st, foldl (turn draw) (Some start) (seq 0 k) = Some st /\
             turn_invariant NB nturns k st.
Proof.
  induction k as [|k IH]; intros Hk Hdraw.
  - exists start. split; [reflexivity|apply turn_invariant_start].
  - destruct IH as (st & Hrun & Hinv); [lia|intros; apply Hdraw; lia|].
    rewrite seq_S, foldl_app, Hrun. cbn [foldl Nat.add].
    destruct st as [Place Nballs].
    assert (Hinv' := Hinv).
    destruct Hinv' as (HlenP & HlenN & _).
    destruct (move_ball_in_range Place (draw k)) as [Place' Hmove].
    { rewrite HlenP. apply Hdraw. lia. }
    assert (Hstep : turn draw (Some (Place, Nballs)) k
                    = Some (Place', <[(k + 1)%nat := INR (count_blue Place')]> Nballs)).
    { unfold turn. cbn [mbind option_bind]. rewrite Hmove.
      cbn [mbind option_bind]. unfold set_item.
      now rewrite bool_decide_eq_true_2 by lia. }
    eexists. split; [exact Hstep|].
    eapply turn_invariant_step; [|exact Hinv|exact Hstep]. lia.
Qed.

Lemma turns_keep_length k st :
  (k <= nturns)%nat ->
  foldl (turn draw) (Some start) (seq 0 k) = Some st -> length st.1 = NB.
Proof.
  revert st. induction k as [|k IH]; intros st Hk.
  - cbn. intros [= <-]. apply Initial_Place_count.
  - rewrite seq_S, foldl_app. cbn [foldl Nat.add].
    destruct (foldl (turn draw) (Some start) (seq 0 k)) as [[P N]|];
      [|discriminate].
    specialize (IH (P, N) ltac:(lia) eq_refl). cbn in IH.
    unfold turn. cbn [mbind option_bind].
    destruct (move_ball P (draw k)) as [P'|] eqn:Hmove; [|discriminate].
    cbn [mbind option_bind]. destruct (set_item _ _ _); [|discriminate].
    cbn [mbind option_bind]. intros [= <-]. cbn.
    apply move_ball_count in Hmove as [-> _]. exact IH.
Qed.

Lemma turns_stay_failed l : foldl (turn draw) None l = None.
Proof. induction l as [|i l IH]; [reflexivity|exact IH]. Qed.

Lemma turns_fail t :
  (t < nturns)%nat -> (NB <= draw t)%nat ->
  foldl (turn draw) (Some start) (seq 0 nturns) = None.
Proof.
  intros Ht Hbad.
  assert (Hseq := seq_app t (S (nturns - t - 1)) 0).
  replace (t + S (nturns - t - 1))%nat with nturns in Hseq by lia.
  rewrite Hseq, foldl_app. cbn [seq foldl Nat.add].
  destruct (foldl (turn draw) (Some start) (seq 0 t)) as [[P N]|] eqn:Hrun.
  - apply turns_keep_length in Hrun as HlenP; [|lia]. cbn in HlenP.
    unfold turn at 2. cbn [mbind option_bind].
    rewrite move_ball_out_of_range by lia. cbn [mbind option_bind].
    apply turns_stay_failed.
  - cbn [turn mbind option_bind]. apply turns_stay_failed.
Qed.

End SimulationLoop.

Module SimulationProps.
Import EhrenfestSim.

(** X11: when every drawn index is below [NB] (as with the notebook's
    [randint(0,10)] and ten balls), an experiment finishes; [Nballs]
    starts at min(3, NB), consecutive entries differ by exactly one, and
    the final number of blue balls, written to [H20], lies between 0 and
    [NB] and has the parity of min(3, NB) + nturns. *)
Theorem experiment_changes_by_one (NB nturns : nat) (draw : nat -> nat) :
  (forall t, (t < nturns)%nat -> (draw t < NB)%nat) ->
  exists Place Nballs,
    experiment NB nturns draw = Some (Place, Nballs, INR (count_blue Place)) /\
    length Place = NB /\
    length Nballs = (nturns + 1)%nat /\
    Nballs !! 0%nat = Some (INR (Nat.min 3 NB)) /\
    Nballs !! nturns = Some (INR (count_blue Place)) /\
    (forall t, (t < nturns)%nat -> exists a b : nat,
        Nballs !! t = Some (INR a) /\ Nballs !! S t = Some (INR b) /\
        (b = a + 1 \/ a = b + 1)%nat) /\
    Nat.even (count_blue Place) = Nat.even (Nat.min 3 NB + nturns) /\
    (count_blue Place <= NB)%nat.
Proof.
  intros Hdraw.
  destruct (turns_succeed NB nturns draw nturns ltac:(lia) Hdraw)
    as ([Place Nballs] & Hrun & Hinv).
  exists Place, Nballs. split; [|exact Hinv].
  unfold experiment. cbv zeta. unfold set_item at 1.
  rewrite bool_decide_eq_true_2 by (rewrite length_replicate; lia).
  cbn [mbind option_bind]. rewrite Hrun. reflexivity.
Qed.

(** X12: a drawn index that is not below [NB] stops the experiment with
    an [IndexError]; the draws come from [randint(0,10)] whatever [NB]
    is, so this can happen exactly when [NB] is below ten. *)
Theorem experiment_index_error (NB nturns : nat) (draw : nat -> nat) (t : nat) :
  (t < nturns)%nat -> (NB <= draw t)%nat ->
  experiment NB nturns draw = None.
Proof.
  intros Ht Hbad. unfold experiment. cbv zeta. unfold set_item at 1.
  rewrite bool_decide_eq_true_2 by (rewrite length_replicate; lia).
  cbn [mbind option_bind]. now rewrite (turns_fail NB nturns draw t Ht Hbad).
Qed.

End SimulationProps.

Lemma experiment_changes_by_one_witness :
  exists Place Nballs,
    EhrenfestSim.experiment 10 20 (fun t => Nat.modulo (7 * t) 10)
    = Some (Place, Nballs, INR (EhrenfestSim.count_blue Place)) /\
    Nat.even (EhrenfestSim.count_blue Place) = false.
Proof.
  destruct (SimulationProps.experiment_changes_by_one 10 20
              (fun t => Nat.modulo (7 * t) 10))
    as (Place & Nballs & Hrun & _ & _ & _ & _ & _ & Hpar & _).
  - intros t _. apply Nat.mod_upper_bound. lia.
  - exists Place, Nballs. split; [exact Hrun|exact Hpar].
Defined.

Lemma experiment_index_error_witness :
  EhrenfestSim.experiment 8 20 (fun t => 9%nat) = None.
Proof.
  apply (SimulationProps.experiment_index_error 8 20 (fun t => 9%nat) 0); lia.
Defined.

Section ParityLemmas.
Import Ehrenfest.

Lemma np_sum_vmul_zero_terms (a b : list R) :
  (forall k, nth k a 0 * nth k b 0 = 0) -> np_sum (vmul a b) = 0.
Proof.
  unfold np_sum, vmul. revert b.
  induction a as [|v a IH]; intros [|w b] Hz; try reflexivity.
  cbn [zip_with foldr]. rewrite IH by (intros k; apply (Hz (S k))).
  specialize (Hz 0%nat). cbn in Hz. lra.
Qed.

Lemma nth_tabulate (f : nat -> R) (n j : nat) :
  nth j (map f (seq 0 n)) 0 = if decide (j < n)%nat then f j else 0.
Proof. rewrite nth_lookup, lookup_tabulate. now case_decide. Qed.

Lemma nth_column (B : matrix) (j k : nat) :
  nth k (column j B) 0 = nth j (nth k B []) 0.
Proof.
  unfold column. rewrite !nth_lookup, lookup_map.
  destruct (B !! k) as [row|]; cbn; [now rewrite nth_lookup|reflexivity].
Qed.

(** Entries of a product vanish where the parities of the factors
    force every term of the sum to vanish. *)
Lemma matmul_parity (s : nat -> nat) (a b : nat) (A B : matrix) :
  (forall i k, Nat.odd (s i + k + a) = true -> nth k (nth i A []) 0 = 0) ->
  (forall k j, Nat.odd (k + j + b) = true -> nth j (nth k B []) 0 = 0) ->
  forall i j, Nat.odd (s i + j + (a + b)) = true ->
              nth j (nth i (matmul A B) []) 0 = 0.
Proof.
  intros HA HB i j Hodd. unfold matmul.
  rewrite (nth_lookup (map _ A)), lookup_map.
  destruct (A !! i) as [row|] eqn:Hrow; cbn [fmap option_fmap option_map from_option id];
    [|now destruct j].
  unfold vecmat, Datatypes.id. rewrite nth_tabulate. case_decide; [|reflexivity].
  apply np_sum_vmul_zero_terms. intros k. rewrite nth_column.
  assert (Hrowk : nth k row 0 = nth k (nth i A []) 0).
  { now rewrite (nth_lookup A), Hrow. }
  destruct (Nat.odd (s i + k + a)) eqn:H1.
  { rewrite Hrowk, (HA i k H1). ring. }
  destruct (Nat.odd (k + j + b)) eqn:H2.
  { rewrite (HB k j H2). ring. }
  exfalso. rewrite !Nat.odd_add in *.
  destruct (Nat.odd (s i)), (Nat.odd j), (Nat.odd k), (Nat.odd a), (Nat.odd b);
    discriminate.
Qed.

Lemma jump_matrix_parity NB k j :
  Nat.odd (k + j + 1) = true ->
  nth j (nth k (map (fun i => map (jump NB i) (seq 0 (NB + 1)))
                  (seq 0 (NB + 1))) []) 0 = 0.
Proof.
  intros Hodd. rewrite (nth_lookup (map _ _)), lookup_tabulate.
  case_decide; cbn [from_option]; unfold Datatypes.id; [|now destruct j].
  rewrite nth_tabulate. case_decide; [|reflexivity].
  unfold jump.
  destruct (Nat.eqb_spec (j + 1) k) as [<-|_].
  { replace (j + 1 + j + 1)%nat with (2 * (j + 1))%nat in Hodd by lia.
    now rewrite Nat.odd_even in Hodd. }
  destruct (Nat.eqb_spec j (k + 1)) as [->|_]; [|reflexivity].
  replace (k + (k + 1) + 1)%nat with (2 * (k + 1))%nat in Hodd by lia.
  now rewrite Nat.odd_even in Hodd.
Qed.

Lemma eye_parity n i j :
  Nat.odd (i + j + 0) = true -> nth j (nth i (eye n) []) 0 = 0.
Proof.
  intros Hodd. unfold eye. rewrite (nth_lookup (map _ _)), lookup_tabulate.
  case_decide; cbn [from_option]; unfold Datatypes.id; [|now destruct j].
  rewrite nth_tabulate. case_decide; [|reflexivity].
  destruct (Nat.eqb_spec i j) as [->|_]; [|reflexivity].
  replace (j + j + 0)%nat with (2 * j)%nat in Hodd by lia.
  now rewrite Nat.odd_even in Hodd.
Qed.

Lemma jump_power_parity NB n i j :
  Nat.odd (i + j + n) = true ->
  nth j (nth i (matrix_power (map (fun i => map (jump NB i) (seq 0 (NB + 1)))
                                (seq 0 (NB + 1))) n) []) 0 = 0.
Proof.
  revert i j. induction n as [|n IH]; intros i j Hodd.
  - now apply eye_parity.
  - destruct n as [|n].
    + now apply jump_matrix_parity.
    + change (matrix_power ?A (S (S n)))
        with (matmul (matrix_power A (S n)) A).
      apply (matmul_parity (fun i => i) (S n) 1).
      * exact IH.
      * intros k j'. apply jump_matrix_parity.
      * now replace (S n + 1)%nat with (S (S n)) by lia.
Qed.

End ParityLemmas.

Module ParityProps.
Import Ehrenfest.

(** X13: the powers of the jump matrix that the notebook builds respect
    parity: the entry in row i and column j of the n-th power is zero
    whenever i + j + n is odd, and so is entry j of the initial row [V1]
    times that power whenever 3 + j + n is odd.  (Starting from state 3,
    state 9 cannot be reached in 21 turns.) *)
Theorem jump_matrix_power_parity (NB n : nat) (M V1 : matrix) :
  (1 <= NB)%nat ->
  build_M NB = Some M ->
  set_item2 (zeros 1 (NB + 1)) 0 3 1 = Some V1 ->
  (forall i j, Nat.odd (i + j + n) = true ->
               nth j (nth i (matrix_power M n) []) 0 = 0) /\
  (forall j, Nat.odd (3 + j + n) = true ->
             nth j (nth 0 (matmul V1 (matrix_power M n)) []) 0 = 0).
Proof.
  intros HNB HM HV1. rewrite build_M_closed_form in HM by exact HNB.
  injection HM as <-. split; [intros i j; apply jump_power_parity|].
  intros j Hodd.
  apply (matmul_parity (fun _ => 3%nat) 0 n V1 _); [| |now rewrite Nat.add_0_l].
  - intros i k Hk. unfold set_item2, set_item, zeros in HV1.
    cbn [replicate lookup list_lookup mbind option_bind] in HV1.
    rewrite length_replicate in HV1.
    destruct (bool_decide (3 < NB + 1)%nat); [|discriminate].
    cbn [mbind option_bind insert list_insert] in HV1. injection HV1 as <-.
    destruct i as [|i]; [|now destruct i, k].
    cbn [nth]. rewrite unit_vector_tabulate, nth_tabulate.
    case_decide; [|reflexivity].
    destruct (Nat.eqb_spec k 3) as [->|_]; [|reflexivity].
    now vm_compute in Hk.
  - intros k j'. apply jump_power_parity.
Qed.

End ParityProps.

Lemma jump_matrix_power_parity_witness :
  exists M V1,
    Ehrenfest.build_M 10 = Some M /\
    set_item2 (zeros 1 (10 + 1)) 0 3 1 = Some V1 /\
    nth 9 (nth 0 (matmul V1 (matrix_power M 21)) []) 0 = 0.
Proof.
  eexists _, _. split; [apply build_M_closed_form; lia|].
  split; [reflexivity|].
  eapply (ParityProps.jump_matrix_power_parity 10 21).
  - lia.
  - apply build_M_closed_form. lia.
  - reflexivity.
  - reflexivity.
Defined.

Section EfficiencyLemmas.
Import AcceptReject SamplingCells.

Lemma sampler_tries_enough u xmin xmax fuel N_points s0 s :
  sampler u xmin xmax fuel N_points s0 = Some s -> (N_points <= N_try s)%nat.
Proof.
  intros Hrun. apply sample_loop_invariant in Hrun; [|lia].
  unfold loop_invariant in Hrun. destruct Hrun as (_ & _ & Hlen & _).
  rewrite <- Hlen. etransitivity; [apply length_filter|].
  now rewrite length_seq.
Qed.

Lemma sampler_half_quarter_run :
  sampler half_quarter 0 1 1 2 start_state
  = Some {| rng := 4; x_transformation := []; N_try := 2;
            x_accepted := [0 + (1 - 0) * half_quarter 0;
                           0 + (1 - 0) * half_quarter 2] |}.
Proof.
  unfold sampler, sample_step, start_state, set_item, ymin, ymax.
  cbn [seq foldl].
  repeat (cbn [mbind option_bind rng N_try x_accepted x_transformation
               try_until_accept uniform replicate length insert list_insert
               Nat.add];
          first [ rewrite bool_decide_eq_true_2
                    by (unfold half_quarter, ymin, ymax; simpl; lra)
                | rewrite bool_decide_eq_true_2 by lia ]).
  reflexivity.
Qed.

End EfficiencyLemmas.

Module EfficiencyProps.
Import AcceptReject SamplingCells.

(** X14: after a finished sampling run the number of tries is at least
    the number of points.  For at least one point the efficiency cell
    returns an efficiency in (0, 1], the quantity under the square root
    of its error is nonnegative, and the integral is the efficiency
    times the area of the envelope box; for no point at all the try
    counter is zero and [N_points / N_try] raises [ZeroDivisionError]. *)
Theorem efficiency_in_unit_interval (u : nat -> R) (xmin xmax : R)
    (fuel N_points : nat) (s0 s : state) :
  sampler u xmin xmax fuel N_points s0 = Some s ->
  (N_points <= N_try s)%nat /\
  (N_points = 0%nat -> efficiency_cell xmin xmax N_points s = None) /\
  ((0 < N_points)%nat ->
   exists e, efficiency_cell xmin xmax N_points s = Some e /\
             0 < eff e <= 1 /\
             0 <= eff e * (1 - eff e) / INR (N_try s) /\
             integral e = eff e * ((xmax - xmin) * 2)).
Proof.
  intros Hrun. assert (Hle := sampler_tries_enough _ _ _ _ _ _ _ Hrun).
  split; [exact Hle|]. split.
  - intros ->. unfold sampler in Hrun. cbn in Hrun. injection Hrun as <-.
    reflexivity.
  - intros Hpos. unfold efficiency_cell, Ehrenfest.true_div.
    destruct (N_try s) as [|n] eqn:Hn; [lia|].
    cbn [mbind option_bind]. eexists. split; [reflexivity|].
    cbn [eff integral].
    assert (H0 : 0 < INR N_points) by now apply lt_0_INR.
    assert (H1 : INR N_points <= INR (S n)) by now apply le_INR.
    assert (Hinv : 0 < / INR (S n)) by (apply Rinv_0_lt_compat; lra).
    assert (Heff : 0 < INR N_points / INR (S n) <= 1).
    { unfold Rdiv. split; [nra|].
      replace 1 with (INR (S n) * / INR (S n)) by (apply Rinv_r; lra).
      apply Rmult_le_compat_r; lra. }
    split; [exact Heff|]. split.
    + unfold Rdiv in *. apply Rmult_le_pos; [nra|lra].
    + unfold ymin, ymax. ring.
Qed.

End EfficiencyProps.

Lemma efficiency_in_unit_interval_witness :
  (2 <= 2)%nat /\
  exists e, SamplingCells.efficiency_cell 0 1 2
              {| AcceptReject.rng := 4; AcceptReject.x_transformation := [];
                 AcceptReject.N_try := 2;
                 AcceptReject.x_accepted :=
                   [0 + (1 - 0) * AcceptReject.half_quarter 0;
                    0 + (1 - 0) * AcceptReject.half_quarter 2] |} = Some e /\
            0 < SamplingCells.eff e <= 1.
Proof.
  destruct (EfficiencyProps.efficiency_in_unit_interval _ _ _ _ _ _ _
              sampler_half_quarter_run) as (Hle & _ & Hpos).
  split; [exact Hle|].
  destruct Hpos as (e & He & Heff & _); [lia|].
  exists e. split; [exact He|exact Heff].
Defined.

Module TransformationProps.
Import AcceptReject SamplingCells.

(** X15: for draws in [0, 1) the transformation method returns
    [N_points] values in [0, 1) whose squares are the draws again: the
    square root inverts the cumulative distribution x^2 of f(x) = 2x. *)
Theorem transformation_inverts_cdf (u : nat -> R) (N_points : nat) :
  (forall k, 0 <= u k < 1) ->
  length (transformation u N_points) = N_points /\
  Forall (fun x => 0 <= x < 1) (transformation u N_points) /\
  map (fun x => x ^ 2) (transformation u N_points) = map u (seq 0 N_points).
Proof.
  intros Hu. unfold transformation, uniform. cbn [fst].
  split; [now rewrite length_map, length_seq|]. split.
  - apply Forall_map, Forall_forall. intros k _. cbn beta.
    replace (0 + (1 - 0) * u k) with (u k) by ring.
    split; [apply sqrt_pos|].
    rewrite <- sqrt_1. apply sqrt_lt_1_alt. apply Hu.
  - rewrite map_map. apply map_ext. intros k.
    replace (0 + (1 - 0) * u k) with (u k) by ring.
    apply pow2_sqrt, Hu.
Qed.

End TransformationProps.

Lemma transformation_inverts_cdf_witness :
  map (fun x => x ^ 2) (SamplingCells.transformation AcceptReject.half_quarter 2)
  = map AcceptReject.half_quarter (seq 0 2).
Proof.
  apply (TransformationProps.transformation_inverts_cdf
           AcceptReject.half_quarter 2).
  intros k. unfold AcceptReject.half_quarter. destruct (Nat.even k); lra.
Defined.

Section CenterLemmas.
Import Calibration.

(** The centers of [n] equal bins. *)
Lemma centers_linspace lo hi n :
  centers (linspace lo hi n)
  = map (fun i => 0.5 * ((lo + INR (S i) * ((hi - lo) / INR n))
                         + (lo + INR i * ((hi - lo) / INR n))))
        (seq 0 n).
Proof.
  apply list_eq. intros i. unfold centers, vscale, vadd, linspace.
  rewrite lookup_map, lookup_zip_with, lookup_tail, lookup_tabulate.
  rewrite removelast_firstn_len, length_map, length_seq. cbn [Init.Nat.pred].
  rewrite lookup_tabulate.
  destruct (decide (i < n)%nat) as [Hi|Hi].
  - rewrite decide_True by lia. cbn [mbind option_bind].
    rewrite lookup_take_lt by exact Hi.
    rewrite lookup_tabulate, decide_True by lia. reflexivity.
  - destruct (decide (S i < S n)%nat); [lia|]. reflexivity.
Qed.

Lemma np_sum_centers_terms (K lo t : R) (m : nat) :
  np_sum (map (fun i => K * (0.5 * ((lo + INR (S i) * t) + (lo + INR i * t))))
            (seq 0 m))
  = K * (INR m * lo + t * INR m ^ 2 / 2).
Proof.
  induction m as [|m IH]; [cbn; lra|].
  rewrite seq_S, map_app, np_sum_app, IH. cbn [map Nat.add].
  unfold np_sum at 1. cbn [foldr]. rewrite !S_INR. lra.
Qed.

End CenterLemmas.

Module NormalisationProps.
Import Calibration SamplingCells.

(** X16: [fx_2x] is scaled to the histogram it is drawn on: summed over
    the centers of the [N_bins] bins of [xmin, xmax] it gives
    [N_points * (xmax^2 - xmin^2)], that is [N_points] on [0, 1]. *)
Theorem fx_2x_sums_to_N_points (xmin xmax : R) (N_bins N_points : nat) :
  (1 <= N_bins)%nat ->
  np_sum (map (fx_2x xmin xmax N_bins N_points)
            (centers (linspace xmin xmax N_bins)))
  = INR N_points * (xmax ^ 2 - xmin ^ 2).
Proof.
  intros HN. rewrite centers_linspace, map_map. unfold fx_2x. cbv zeta.
  rewrite (np_sum_centers_terms
             (INR N_points * ((xmax - xmin) / INR N_bins) * 2)).
  assert (INR N_bins <> 0) by (apply not_0_INR; lia).
  now field.
Qed.

End NormalisationProps.

Lemma fx_2x_sums_to_N_points_witness :
  np_sum (map (SamplingCells.fx_2x 0 1 100 1000)
            (Calibration.centers (linspace 0 1 100)))
  = INR 1000 * (1 ^ 2 - 0 ^ 2).
Proof.
  apply NormalisationProps.fx_2x_sums_to_N_points. lia.
Defined.

Section PiLemmas.
Import MonteCarloPi.


Lemma select_count {A} (mask : list bool) (a : list A) :
  length mask = length a -> length (select mask a) = count_true mask.
Proof.
  unfold count_true. revert a.
  induction mask as [|b mask IH]; intros [|v a] Hlen; try discriminate;
    [reflexivity|].
  injection Hlen as Hlen. cbn [select]. rewrite filter_cons.
  destruct b.
  - rewrite decide_True by reflexivity. cbn [length]. now rewrite IH.
  - rewrite decide_False by discriminate. now apply IH.
Qed.

Lemma count_true_negb (mask : list bool) :
  (count_true mask + count_true (map negb mask) = length mask)%nat.
Proof.
  unfold count_true. induction mask as [|b mask IH]; [reflexivity|].
  cbn [map length]. rewrite !filter_cons.
  destruct b; cbn [negb].
  - rewrite decide_True by reflexivity. rewrite decide_False by discriminate.
    cbn [length]. lia.
  - rewrite decide_False by discriminate. rewrite decide_True by reflexivity.
    cbn [length]. lia.
Qed.

Lemma length_mask_inside (xs ys : list R) :
  length xs = length ys -> length (mask_inside xs ys) = length xs.
Proof.
  intros Hlen. unfold mask_inside, vadd, vpow.
  rewrite length_map, length_zip_with, !length_map. lia.
Qed.



End PiLemmas.

Module MonteCarloPiProps.
Import MonteCarloPi.


(** X18: the two masks of the scatter plot split the points: every
    point is drawn exactly once, the inside part has [Nhit] points and
    the outside part the remaining ones. *)
Theorem inside_outside_partition (xs ys : list R) :
  length xs = length ys ->
  length (select (mask_inside xs ys) xs)
    = count_true (mask_inside xs ys) /\
  (length (select (mask_inside xs ys) xs)
   + length (select (mask_outside xs ys) xs) = length xs)%nat /\
  length (select (mask_inside xs ys) ys)
    = length (select (mask_inside xs ys) xs) /\
  length (select (mask_outside xs ys) ys)
    = length (select (mask_outside xs ys) xs).
Proof.
  intros Hlen. assert (Hm := length_mask_inside xs ys Hlen).
  assert (Ho : length (mask_outside xs ys) = length xs)
    by (unfold mask_outside; now rewrite length_map).
  rewrite !select_count by congruence.
  repeat split. unfold mask_outside.
  rewrite count_true_negb. exact Hm.
Qed.

End MonteCarloPiProps.


Lemma inside_outside_partition_witness :
  (length (select (MonteCarloPi.mask_inside [0%R; 1%R] [0%R; 1%R])
                  [0%R; 1%R])
   + length (select (MonteCarloPi.mask_outside [0%R; 1%R] [0%R; 1%R])
                    [0%R; 1%R])
   = length [0%R; 1%R])%nat.
Proof.
  destruct (MonteCarloPiProps.inside_outside_partition [0; 1] [0; 1])
    as (_ & H & _).
  - reflexivity.
  - exact H.
Defined.
